(** * worldbox_realworld.py: name reconciliation and polygon synthesis

    A shallow embedding of [src/worldbox_realworld.py].

    - A pandas data frame is a list of rows, in index order.
    - The dictionary [pop_map] is a [gmap string (option pynum)];
      Python's [None] is [None], a number is [Some v].
    - A float is a binary64 number, [PrimFloat.float]: sums, products,
      quotients and comparisons round and compare as the machine does,
      and a decimal literal such as [0.6] is the closest binary64
      number, as in Python.
    - A population figure is a scalar of the population column, an
      integer or a float ([pynum]).
    - The functions of the C library ([pow], [cos], [sin]), whose results
      depend on the platform, are parameters.
    - A Python exception is the [Raise] branch of [result]. *)

From Stdlib Require Import Floats QArith Qround ZArith Lia.
From Stdlib Require Import String Ascii List Sorting.Sorted Permutation.
From Stdlib Require Import Structures.OrdersEx.
From stdpp Require Import gmap strings list fin_maps.

#[local] Set Warnings "-inexact-float".

#[local] Open Scope string_scope.
#[local] Open Scope list_scope.
#[local] Open Scope Z_scope.

(** ** Exceptions *)

Inductive exn : Set := TypeError | IndexError | OverflowError | ValueError.

Inductive result (A : Type) : Type :=
| Ok (a : A)
| Raise (e : exn).
Arguments Ok {A} a.
Arguments Raise {A} e.

#[global] Instance result_ret : MRet result := fun A a => Ok a.

#[global] Instance result_bind : MBind result := fun A B k c =>
  match c with
  | Ok a => k a
  | Raise e => Raise e
  end.

(** ** Numbers *)

(** A scalar of the population column after [pd.to_numeric]: a
    [numpy.int64] when every cell of the column is an integer, a
    [numpy.float64] otherwise. *)
Inductive pynum : Type :=
| PyInt (n : Z)
| PyFloat (f : float).

(** [bool(v)]: zero is false, every other number is true, [nan] too. *)
Definition truthy (v : pynum) : bool :=
  match v with
  | PyInt n => negb (n =? 0)
  | PyFloat f => negb (f =? 0)%float
  end.

(** [float(n)] for an integer: the nearest binary64 number, ties to
    even. *)
Definition Z2float (n : Z) : float :=
  SF2Prim (binary_normalize prec emax n 0 false).

(** The float a number becomes as an operand of [/]. *)
Definition to_float (v : pynum) : float :=
  match v with
  | PyInt n => Z2float n
  | PyFloat f => f
  end.

(** The exact value of a finite float, [m * 2 ^ e]; 0 for the others. *)
Definition SF2Q (x : spec_float) : Q :=
  match x with
  | S754_finite s m e =>
      if 0 <=? e then inject_Z (cond_Zopp s (Z.pos m) * 2 ^ e)
      else cond_Zopp s (Z.pos m) # (2 ^ Z.to_pos (- e))
  | _ => 0
  end.

Definition float_Q (x : float) : Q := SF2Q (Prim2SF x).

(** [math.ceil]: the exact ceiling of a finite float, [OverflowError] for
    an infinity, [ValueError] for [nan]. *)
Definition float_ceil (x : float) : result Z :=
  match Prim2SF x with
  | S754_nan => Raise ValueError
  | S754_infinity _ => Raise OverflowError
  | sf => Ok (Qceiling (SF2Q sf))
  end.

(** ** The population loader, [download_population_data] *)

Definition POP_YEAR : Z := 2023.

(** A row of the downloaded table.  [raw_population] is the cell as
    [pd.to_numeric(errors="coerce")] reads it: [None] stands for [NaN],
    the outcome for a cell that does not parse.  The model covers tables
    whose name and year cells are all present. *)
Record RawRow : Type := mkRawRow {
  raw_country : string;
  raw_year : Z;
  raw_population : option pynum
}.

(** A row of [pop_df], the table the loader returns. *)
Record PopRow : Type := mkPopRow {
  country : string;
  year : Z;
  population : pynum
}.

(** [df.sort_values(by=[name_col, year_col])]: the order on the key. *)
Definition key_leb (a b : RawRow) : bool :=
  match String_as_OT.compare (raw_country a) (raw_country b) with
  | Lt => true
  | Eq => raw_year a <=? raw_year b
  | Gt => false
  end.

Definition key_le (a b : RawRow) : Prop := key_leb a b = true.

Fixpoint insert_row (r : RawRow) (l : list RawRow) : list RawRow :=
  match l with
  | [] => [r]
  | x :: t => if key_leb r x then r :: x :: t else x :: insert_row r t
  end.

(** A stable sort, as pandas uses for several keys. *)
Fixpoint sort_values (l : list RawRow) : list RawRow :=
  match l with
  | [] => []
  | r :: t => insert_row r (sort_values t)
  end.

Definition same_name (a b : RawRow) : bool :=
  String.eqb (raw_country a) (raw_country b).

(** [df.groupby(name_col).tail(1)]: the last row of every group, in the
    order of the frame. *)
Fixpoint groupby_tail1 (l : list RawRow) : list RawRow :=
  match l with
  | [] => []
  | r :: t =>
      if existsb (same_name r) t then groupby_tail1 t
      else r :: groupby_tail1 t
  end.

Definition has_year (y : Z) (l : list RawRow) : bool :=
  existsb (fun r => raw_year r =? y) l.

(** Lines 47-50. *)
Definition select_year (l : list RawRow) : list RawRow :=
  if has_year POP_YEAR l
  then List.filter (fun r => raw_year r =? POP_YEAR) l
  else groupby_tail1 (sort_values l).

(** Lines 52-53: coerce, then [dropna]. *)
Fixpoint dropna (l : list RawRow) : list PopRow :=
  match l with
  | [] => []
  | r :: t =>
      match raw_population r with
      | Some q => mkPopRow (raw_country r) (raw_year r) q :: dropna t
      | None => dropna t
      end
  end.

Definition download_population_data (rows : list RawRow) : list PopRow :=
  dropna (select_year rows).

(** The loader as the specification words it: unparseable rows go first,
    the year is selected among what remains. *)
Definition numeric (r : RawRow) : bool :=
  match raw_population r with Some _ => true | None => false end.

Definition spec_loader (rows : list RawRow) : list PopRow :=
  dropna (select_year (List.filter numeric rows)).

(** ** The column choice of the loader (lines 38-46 and 51) *)

(** [sub in s] on strings. *)
Definition str_contains (sub s : string) : bool :=
  match String.index 0 sub s with
  | Some _ => true
  | None => false
  end.

(** [[c for c in columns if ...][0]], which raises on an empty list. *)
Definition first_column (l : list string) : result string :=
  match l with
  | [] => Raise IndexError
  | c :: _ => Ok c
  end.

Section Columns.

(** [str.lower] of Python. *)
Variable lower : string -> string.

(** Lines 38-41. *)
Definition choose_name_col (columns : list string) : result string :=
  if existsb (String.eqb "Country Name") columns then Ok "Country Name"
  else first_column columns.

(** Lines 42-45. *)
Definition choose_year_col (columns : list string) : result string :=
  if existsb (String.eqb "Year") columns then Ok "Year"
  else first_column
         (List.filter (fun c => str_contains "year" (lower c)) columns).

(** Line 46. *)
Definition is_value_name (c : string) : bool :=
  String.eqb (lower c) "value" || String.eqb (lower c) "population".

Definition choose_val_col (columns : list string) : result string :=
  first_column (List.filter is_value_name columns).

(** Lines 38-46: the name, year and value columns, chosen in this order. *)
Definition select_columns (columns : list string)
  : result (string * string * string) :=
  name_col ← choose_name_col columns;
  year_col ← choose_year_col columns;
  val_col ← choose_val_col columns;
  Ok (name_col, year_col, val_col).

End Columns.

(** Line 51: [df.rename(columns={name_col: "country", val_col:
    "population"})]; in the dictionary a later key replaces an equal
    earlier one. *)
Definition rename_columns (name_col val_col : string) (columns : list string)
  : list string :=
  let mapper : gmap string string :=
    <[val_col := "population"]> (<[name_col := "country"]> ∅) in
  map (fun c => default c (mapper !! c)) columns.

(** A row of [pop_df] read as a row of a downloaded table. *)
Definition as_raw (p : PopRow) : RawRow :=
  mkRawRow (country p) (year p) (Some (population p)).

(** ** The name reconciler (lines 70-84 of [main]) *)

(** [Series.unique()]: the distinct values in order of first appearance. *)
Fixpoint unique (l : list string) : list string :=
  match l with
  | [] => []
  | x :: t => x :: List.filter (fun y => negb (String.eqb y x)) (unique t)
  end.

(** [frame[column].iloc[0]], which raises on an empty selection. *)
Definition iloc0 (l : list PopRow) : result pynum :=
  match l with
  | [] => Raise IndexError
  | r :: _ => Ok (population r)
  end.

Section Reconciler.

(** [str.lower] of Python. *)
Variable lower : string -> string.

(** The scorer of [fuzzywuzzy.process] applied to the processed query and
    the processed choice (by default [fuzz.WRatio] after
    [utils.full_process]). *)
Variable scorer : string -> string -> Z.

(** [process.extractWithoutOrder] with its default [score_cutoff=0]. *)
Definition extractWithoutOrder (query : string) (choices : list string)
  : list (string * Z) :=
  List.filter (fun p => 0 <=? snd p)
              (map (fun choice => (choice, scorer query choice)) choices).

(** [max(best_list, key=lambda i: i[1])]: the first of the greatest. *)
Fixpoint max_from (best : string * Z) (l : list (string * Z)) : string * Z :=
  match l with
  | [] => best
  | c :: t => max_from (if snd best <? snd c then c else best) t
  end.

(** [process.extractOne]: [None] when nothing is left to choose from. *)
Definition extractOne (query : string) (choices : list string)
  : option (string * Z) :=
  match extractWithoutOrder query choices with
  | [] => None
  | c :: t => Some (max_from c t)
  end.

Variable pop_df : list PopRow.

(** Line 70. *)
Definition pop_names : list string := unique (map country pop_df).

(** Line 76: [pop_df[pop_df["country"].str.lower() == cname.lower()]]. *)
Definition exact_rows (cname : string) : list PopRow :=
  List.filter (fun r => String.eqb (lower (country r)) (lower cname)) pop_df.

(** Line 82: [pop_df[pop_df["country"] == best]]. *)
Definition named_rows (best : string) : list PopRow :=
  List.filter (fun r => String.eqb (country r) best) pop_df.

(** Lines 76-84, the value stored in [pop_map[cname]].  Unpacking the
    [None] that [extractOne] returns for no choices is a [TypeError]. *)
Definition match_one (cname : string) : result (option pynum) :=
  match exact_rows cname with
  | (_ :: _) as match_ => v ← iloc0 match_; Ok (Some v)
  | [] =>
      match extractOne cname pop_names with
      | None => Raise TypeError
      | Some (best, score) =>
          if 85 <? score
          then v ← iloc0 (named_rows best); Ok (Some v)
          else Ok None
      end
  end.

(** Lines 73-84 over the names of the boundary rows, in order. *)
Fixpoint match_loop (cnames : list string)
    (pop_map : gmap string (option pynum))
  : result (gmap string (option pynum)) :=
  match cnames with
  | [] => Ok pop_map
  | cname :: rest =>
      v ← match_one cname;
      match_loop rest (<[cname := v]> pop_map)
  end.

End Reconciler.

(** ** The polygon synthesizer *)

(** The vertices handed to shapely's [Polygon]. *)
Definition Polygon : Type := list (float * float).

(** [math.pi]. *)
Definition pi : float := 0x1.921fb54442d18p+1%float.

Section Synthesizer.

(** [pow], [cos] and [sin] of the C library. *)
Variable libm_pow : float -> float -> float.
Variable libm_cos : float -> float.
Variable libm_sin : float -> float.

(** [x ** 0.5] on floats.  Python settles [nan], the infinities, zero
    and one itself, and turns a negative base with this exponent into a
    complex number, on which the [max] of line 98 raises [TypeError];
    every other base goes to [pow]. *)
Definition float_pow_half (x : float) : result float :=
  if is_nan x then Ok x
  else if is_infinity x then Ok infinity
  else if (x =? 0)%float then Ok 0%float
  else if (x <? 0)%float then Raise TypeError
  else if (x =? 1)%float then Ok 1%float
  else Ok (libm_pow x 0.5%float).

(** [max(0.5, x)]: the first argument unless the second is greater. *)
Definition max_half (x : float) : float :=
  if (0.5 <? x)%float then x else 0.5%float.

(** Line 98. *)
Definition radius_of (area : float) : result float :=
  root ← float_pow_half area;
  Ok (max_half (root * 0.6)%float).

(** Line 99. *)
Definition sides_of (radius : float) : nat :=
  if (radius <? 0.8)%float then 4%nat
  else if (radius <? 2)%float then 6%nat
  else if (radius <? 4)%float then 8%nat
  else 12%nat.

(** Lines 55-61. *)
Definition make_regular_polygon (cx cy radius : float) (sides : nat)
    (rotation : float) : Polygon :=
  map (fun i : nat =>
         let ang := (rotation
                     + 2 * pi * Z2float (Z.of_nat i)
                       / Z2float (Z.of_nat sides))%float in
         ((cx + radius * libm_cos ang)%float,
          (cy + radius * libm_sin ang)%float))
      (seq 0 sides).

End Synthesizer.

(** ** The pipeline, [main] *)

(** What [main] observes of a shapely geometry. *)
Record Geometry : Type := mkGeometry {
  is_empty : bool;
  representative_point : float * float;
  area : float
}.

(** A row of [world]. *)
Record Region : Type := mkRegion {
  reg_country : string;
  geometry : option Geometry;
  iso3 : string
}.

(** An entry of [countries]. *)
Record OutputRecord : Type := mkOutputRecord {
  out_country : string;
  out_iso3 : string;
  population_raw : option pynum;
  population_millions : option Z
}.

(** Line 104: [int(ceil(pop_val / 1_000_000)) if pop_val else None]; the
    quotient is a binary64 division. *)
Definition pop_millions (pop_val : option pynum) : result (option Z) :=
  match pop_val with
  | Some v =>
      if truthy v
      then m ← float_ceil (to_float v / 1000000)%float; Ok (Some m)
      else Ok None
  | None => Ok None
  end.

(** What a run leaves behind: the plotted polygons and the saved state. *)
Record Output : Type := mkOutput {
  polygons : list Polygon;
  state_year : Z;
  countries : list OutputRecord
}.

Section Main.

Variable lower : string -> string.
Variable scorer : string -> string -> Z.
Variable libm_pow : float -> float -> float.
Variable libm_cos : float -> float.
Variable libm_sin : float -> float.

(** Lines 91-110.  [plotted] collects the polygons handed to the plot. *)
Fixpoint build_loop (pop_map : gmap string (option pynum))
    (world : list Region)
    (plotted : list Polygon) (countries : list OutputRecord)
  : result (list Polygon * list OutputRecord) :=
  match world with
  | [] => Ok (plotted, countries)
  | row :: rest =>
      match geometry row with
      | None => build_loop pop_map rest plotted countries
      | Some geom =>
          if is_empty geom then build_loop pop_map rest plotted countries
          else
            let '(cx, cy) := representative_point geom in
            radius ← radius_of libm_pow (area geom);
            let sides := sides_of radius in
            let poly := make_regular_polygon libm_cos libm_sin
                          cx cy radius sides 0.5%float in
            let pop_val := default None (pop_map !! reg_country row) in
            pop_millions ← pop_millions pop_val;
            build_loop pop_map rest (plotted ++ [poly])
              (countries ++
                 [mkOutputRecord (reg_country row) (iso3 row) pop_val
                                 pop_millions])
      end
  end.

(** Lines 69-110 and what line 121 saves.  Reading the boundaries and
    the download, drawing the figure and writing the files are not part
    of the model. *)
Definition main (world : list Region) (rows : list RawRow) : result Output :=
  let pop_df := download_population_data rows in
  pop_map ← match_loop lower scorer pop_df (map reg_country world) ∅;
  built ← build_loop pop_map world [] [];
  Ok (mkOutput (fst built) POP_YEAR (snd built)).

End Main.

(** ** Notions the properties are stated with *)

(** The rows line 93 lets through. *)
Definition has_boundary (row : Region) : bool :=
  match geometry row with
  | Some geom => negb (is_empty geom)
  | None => false
  end.

Definition kept (world : list Region) : list Region :=
  List.filter has_boundary world.

(** What line 95-97 read off a row: the anchor point and the area. *)
Definition anchor_area (row : Region) : option (float * float * float) :=
  match geometry row with
  | Some geom => Some (representative_point geom, area geom)
  | None => None
  end.

(** The value a computation returns, [None] where it raises. *)
Definition value_of {A : Type} (c : result (option A)) : option A :=
  match c with
  | Ok v => v
  | Raise _ => None
  end.

Section Expected.

Variable lower : string -> string.
Variable scorer : string -> string -> Z.
Variable libm_pow : float -> float -> float.
Variable libm_cos : float -> float.
Variable libm_sin : float -> float.

(** Lines 98-100 as a function of the anchor point and the area. *)
Definition synthesize (anchor : float * float) (area : float)
  : result Polygon :=
  radius ← radius_of libm_pow area;
  Ok (make_regular_polygon libm_cos libm_sin (fst anchor) (snd anchor)
        radius (sides_of radius) 0.5%float).

Definition polygon_of (row : Region) : result Polygon :=
  match geometry row with
  | Some geom => synthesize (representative_point geom) (area geom)
  | None => Raise TypeError
  end.

(** Lines 103-110 for one row. *)
Definition record_of (pop_map : gmap string (option pynum)) (row : Region)
  : result OutputRecord :=
  let pop_val := default None (pop_map !! reg_country row) in
  pop_millions ← pop_millions pop_val;
  Ok (mkOutputRecord (reg_country row) (iso3 row) pop_val pop_millions).

(** The record of a row, from the reconciler's answer for its name. *)
Definition expected_record (pop_df : list PopRow) (row : Region)
  : OutputRecord :=
  let pop_val := value_of (match_one lower scorer pop_df (reg_country row)) in
  mkOutputRecord (reg_country row) (iso3 row) pop_val
                 (value_of (pop_millions pop_val)).

End Expected.

(** *** The order of floats *)

(** A key that orders the floats other than [nan] as [<] does:
    infinities outermost, then sign, exponent and mantissa. *)
Definition SF_key (x : spec_float) : option (Z * Z * Z) :=
  match x with
  | S754_nan => None
  | S754_infinity s => Some (if s then -2 else 2, 0, 0)
  | S754_zero _ => Some (0, 0, 0)
  | S754_finite s m e =>
      Some (if s then (-1, - e, Z.neg m) else (1, e, Z.pos m))
  end.

Definition key_compare (a b : Z * Z * Z) : comparison :=
  match fst (fst a) ?= fst (fst b) with
  | Eq => match snd (fst a) ?= snd (fst b) with
          | Eq => snd a ?= snd b
          | c => c
          end
  | c => c
  end.

Definition float_key (x : float) : option (Z * Z * Z) := SF_key (Prim2SF x).

(** *** The radius as the specification words it *)


(** ** A concrete run, for the examples *)

Module Examples.

(** [str.lower] on ASCII letters. *)
Definition ascii_lower (c : ascii) : ascii :=
  let n := nat_of_ascii c in
  if ((65 <=? n) && (n <=? 90))%nat then ascii_of_nat (n + 32) else c.

Fixpoint str_lower (s : string) : string :=
  match s with
  | EmptyString => EmptyString
  | String c t => String (ascii_lower c) (str_lower t)
  end.

(** A scorer on the library's scale: 100 for equal names up to case, 90
    when the query starts the choice, 30 otherwise. *)
Definition toy_scorer (query choice : string) : Z :=
  if String.eqb (str_lower query) (str_lower choice) then 100
  else if String.prefix (str_lower query) (str_lower choice) then 90
  else 30.

(** A [pow] that is right for the exponent 0.5: the correctly rounded
    square root. *)
Definition sqrt_pow (x y : float) : float := PrimFloat.sqrt x.

(** Polynomials in the place of [cos] and [sin]; no example depends on
    the values they take. *)
Definition poly_cos (x : float) : float :=
  (1 - x * x / 2 + x * x * x * x / 24)%float.

Definition poly_sin (x : float) : float :=
  (x - x * x * x / 6 + x * x * x * x * x / 120)%float.

Definition rows0 : list RawRow :=
  [ mkRawRow "Russian Federation" 2023 (Some (PyInt 144000001));
    mkRawRow "france" 2023 (Some (PyInt 68000000));
    mkRawRow "France" 2023 (Some (PyInt 1));
    mkRawRow "Atlantis" 2023 (Some (PyInt (-1)));
    mkRawRow "Nauru" 2023 (Some (PyInt 0));
    mkRawRow "Nowhere" 2022 (Some (PyInt 5));
    mkRawRow "Bad" 2023 None ].

Definition square (a : float) : Geometry :=
  mkGeometry false (1%float, 2%float) a.

Definition world0 : list Region :=
  [ mkRegion "Russia" (Some (square 49)) "RUS";
    mkRegion "Ghost" None "GHO";
    mkRegion "France" (Some (square 4)) "FRA";
    mkRegion "Void" (Some (mkGeometry true (0%float, 0%float) 0)) "VOI";
    mkRegion "Atlantis" (Some (square 0)) "ATL";
    mkRegion "Mars" (Some (square 1)) "MRS";
    mkRegion "NAURU" (Some (square 1)) "NRU" ].

(** A table with no row of the target year. *)
Definition rows1 : list RawRow :=
  [ mkRawRow "B" 2021 None;
    mkRawRow "A" 2022 (Some (PyInt 5));
    mkRawRow "B" 2019 (Some (PyInt 7));
    mkRawRow "A" 2020 None ].

(** A table whose only row of the target year does not parse. *)
Definition rows2 : list RawRow :=
  [ mkRawRow "A" 2023 None;
    mkRawRow "A" 2022 (Some (PyInt 5));
    mkRawRow "B" 2021 (Some (PyInt 7)) ].

Definition records0 : list OutputRecord :=
  [ mkOutputRecord "Russia" "RUS" (Some (PyInt 144000001)) (Some 145);
    mkOutputRecord "France" "FRA" (Some (PyInt 68000000)) (Some 68);
    mkOutputRecord "Atlantis" "ATL" (Some (PyInt (-1))) (Some 0);
    mkOutputRecord "Mars" "MRS" None None;
    mkOutputRecord "NAURU" "NRU" (Some (PyInt 0)) None ].


End Examples.

(** * Properties *)

Lemma bind_Ok {A B : Type} (c : result A) (k : A -> result B) (b : B) :
  c ≫= k = Ok b -> exists a, c = Ok a /\ k a = Ok b.
Proof. destruct c as [a|e]; simpl; intros H; [eauto | discriminate]. Qed.

(** ** Facts about the loader *)

Section LoaderFacts.

Lemma compare_refl s : String_as_OT.compare s s = Eq.
Proof.
  destruct (String_as_OT.compare_spec s s) as [_|L|L]; [reflexivity| |];
    exfalso; exact (StrictOrder_Irreflexive s L).
Qed.

Lemma key_leb_total a b : key_leb a b = false -> key_leb b a = true.
Proof.
  unfold key_leb.
  destruct (String_as_OT.compare_spec (raw_country a) (raw_country b)) as [E|L|G];
    try discriminate.
  - rewrite E, compare_refl.
    intros H. apply Z.leb_gt in H. apply Z.leb_le. lia.
  - intros _. unfold String_as_OT.lt in G. now rewrite G.
Qed.

Lemma key_le_trans a b c : key_le a b -> key_le b c -> key_le a c.
Proof.
  unfold key_le, key_leb.
  destruct (String_as_OT.compare_spec (raw_country a) (raw_country b)) as [E1|L1|G1];
    try discriminate;
    destruct (String_as_OT.compare_spec (raw_country b) (raw_country c)) as [E2|L2|G2];
    try discriminate; intros H1 H2.
  - rewrite E1, E2, compare_refl.
    apply Z.leb_le in H1, H2. apply Z.leb_le. lia.
  - rewrite E1. unfold String_as_OT.lt in L2. now rewrite L2.
  - rewrite <- E2. unfold String_as_OT.lt in L1. now rewrite L1.
  - assert (L : String_as_OT.lt (raw_country a) (raw_country c))
      by (etransitivity; eassumption).
    unfold String_as_OT.lt in L. now rewrite L.
Qed.

Lemma key_le_same_name a b :
  key_le a b -> raw_country a = raw_country b -> raw_year a <= raw_year b.
Proof.
  unfold key_le, key_leb. intros H E. rewrite E, compare_refl in H.
  now apply Z.leb_le.
Qed.

Lemma insert_row_perm r l : Permutation (insert_row r l) (r :: l).
Proof.
  induction l as [|x t IH]; simpl; [reflexivity|].
  destruct (key_leb r x); [reflexivity|].
  rewrite IH. apply perm_swap.
Qed.

Lemma sort_values_perm l : Permutation (sort_values l) l.
Proof.
  induction l as [|r t IH]; simpl; [reflexivity|].
  rewrite insert_row_perm. now constructor.
Qed.

Lemma insert_row_sorted r l :
  StronglySorted key_le l -> StronglySorted key_le (insert_row r l).
Proof.
  induction 1 as [|x t Hs IH Hx]; simpl.
  - constructor; constructor.
  - destruct (key_leb r x) eqn:E.
    + constructor; [now constructor|].
      constructor; [exact E|].
      eapply List.Forall_impl; [|exact Hx].
      intros y Hy. eapply key_le_trans; [exact E | exact Hy].
    + constructor; [exact IH|].
      apply key_leb_total in E.
      rewrite List.Forall_forall. intros y Hy.
      apply (Permutation_in _ (insert_row_perm r t)) in Hy.
      destruct Hy as [<-|Hy]; [exact E|].
      rewrite List.Forall_forall in Hx. now apply Hx.
Qed.

Lemma sort_values_sorted l : StronglySorted key_le (sort_values l).
Proof.
  induction l as [|r t IH]; simpl; [constructor | now apply insert_row_sorted].
Qed.

Lemma existsb_same_name r l :
  existsb (same_name r) l = true <->
  exists x, In x l /\ raw_country x = raw_country r.
Proof.
  rewrite existsb_exists. unfold same_name.
  split; intros (x & Hx & E); exists x; split; auto.
  - symmetry. now apply String.eqb_eq.
  - apply String.eqb_eq. now symmetry.
Qed.

Lemma groupby_tail1_incl l r : In r (groupby_tail1 l) -> In r l.
Proof.
  induction l as [|x t IH]; simpl; [tauto|].
  destruct (existsb (same_name x) t); simpl; intuition.
Qed.

(** A group's last row is its latest one once the frame is sorted. *)
Lemma groupby_tail1_latest l r :
  StronglySorted key_le l -> In r (groupby_tail1 l) ->
  forall r', In r' l -> raw_country r' = raw_country r ->
             raw_year r' <= raw_year r.
Proof.
  induction 1 as [|x t Hs IH Hx]; simpl; [tauto|].
  rewrite List.Forall_forall in Hx.
  destruct (existsb (same_name x) t) eqn:E; simpl.
  - intros Hr r' [<-|Hr'] En; [|now apply IH].
    apply key_le_same_name; [|exact En].
    apply Hx. now apply groupby_tail1_incl.
  - intros [<-|Hr] r' [<-|Hr'] En; try lia.
    + exfalso. assert (X : existsb (same_name x) t = true)
        by (apply existsb_same_name; eauto).
      congruence.
    + apply key_le_same_name; [|exact En].
      apply Hx. now apply groupby_tail1_incl.
    + now apply IH.
Qed.

(** Every name of the frame keeps a row. *)
Lemma groupby_tail1_names l :
  forall r, In r l ->
  exists r0, In r0 (groupby_tail1 l) /\ raw_country r0 = raw_country r.
Proof.
  induction l as [|x t IH]; simpl; intros r; [tauto|].
  intros [<-|Hr].
  - destruct (existsb (same_name x) t) eqn:E.
    + apply existsb_same_name in E. destruct E as (y & Hy & Ey).
      destruct (IH y Hy) as (r0 & H0 & E0). exists r0. split; [exact H0 | congruence].
    + exists x. split; [now left | reflexivity].
  - destruct (IH r Hr) as (r0 & H0 & E0). exists r0.
    split; [|exact E0].
    destruct (existsb (same_name x) t); [exact H0 | now right].
Qed.

(** No name keeps two rows. *)
Lemma groupby_tail1_NoDup l : List.NoDup (map raw_country (groupby_tail1 l)).
Proof.
  induction l as [|x t IH]; simpl; [constructor|].
  destruct (existsb (same_name x) t) eqn:E; [exact IH|].
  simpl. constructor; [|exact IH].
  intros Hin. apply in_map_iff in Hin. destruct Hin as (y & Ey & Hy).
  apply groupby_tail1_incl in Hy.
  assert (X : existsb (same_name x) t = true)
    by (apply existsb_same_name; eauto).
  congruence.
Qed.

Lemma dropna_In l p :
  In p (dropna l) <->
  exists r, In r l /\ raw_population r = Some (population p) /\
            country p = raw_country r /\ year p = raw_year r.
Proof.
  induction l as [|x t IH]; simpl.
  - split; [tauto | intros (r & [] & _)].
  - destruct (raw_population x) as [q|] eqn:E; simpl; rewrite IH; split.
    + intros [<-|(r & Hr & H)]; [exists x; simpl; auto | exists r; auto].
    + intros (r & [<-|Hr] & Hp & Hc & Hy).
      * left. destruct p as [c y q']; simpl in *. congruence.
      * right. exists r. auto.
    + intros (r & Hr & H). exists r. auto.
    + intros (r & [<-|Hr] & Hp & H); [congruence | exists r; auto].
Qed.

Lemma dropna_names_NoDup l :
  List.NoDup (map raw_country l) -> List.NoDup (map country (dropna l)).
Proof.
  induction l as [|x t IH]; simpl; [constructor|].
  intros Hn. apply List.NoDup_cons_iff in Hn. destruct Hn as [Hx Hn].
  destruct (raw_population x) as [q|]; simpl; [|now apply IH].
  constructor; [|now apply IH].
  intros Hin. apply Hx.
  apply in_map_iff in Hin. destruct Hin as (p & Ep & Hp).
  apply dropna_In in Hp. destruct Hp as (r & Hr & _ & Ec & _).
  apply in_map_iff. exists r. split; [simpl in Ep; congruence | exact Hr].
Qed.

End LoaderFacts.

(** ** Facts about the reconciler *)

Lemma unique_In l x : In x (unique l) <-> In x l.
Proof.
  induction l as [|y t IH]; simpl; [tauto|].
  rewrite filter_In, IH.
  destruct (String.eqb_spec x y) as [->|Hne]; simpl; intuition congruence.
Qed.

(** The first element a filter keeps lies after rejected elements only. *)
Lemma filter_first {A : Type} (f : A -> bool) l r rest :
  List.filter f l = r :: rest ->
  exists pre post, l = pre ++ r :: post /\
                   (forall x, In x pre -> f x = false) /\ f r = true.
Proof.
  induction l as [|x t IH]; simpl; [discriminate|].
  destruct (f x) eqn:E.
  - intros [= -> <-]. exists [], t. simpl. intuition.
  - intros H. destruct (IH H) as (pre & post & -> & Hpre & Hr).
    exists (x :: pre), post. simpl. repeat split; auto.
    intros y [<-|Hy]; auto.
Qed.

Lemma filter_nil_iff {A : Type} (f : A -> bool) l :
  List.filter f l = [] <-> forall x, In x l -> f x = false.
Proof.
  induction l as [|x t IH]; simpl; [intuition|].
  destruct (f x) eqn:E; [|rewrite IH]; split; intros H.
  - discriminate.
  - specialize (H x (or_introl eq_refl)). congruence.
  - intros y [<-|Hy]; auto.
  - intros y Hy. apply H. now right.
Qed.

Section ReconcilerFacts.

Variable lower : string -> string.
Variable scorer : string -> string -> Z.
Variable pop_df : list PopRow.

Lemma max_from_spec l : forall best,
  In (max_from best l) (best :: l) /\
  forall c, In c (best :: l) -> snd c <= snd (max_from best l).
Proof.
  induction l as [|x t IH]; intros best; simpl.
  - split; [now left | intros c [<-|[]]; lia].
  - destruct (IH (if snd best <? snd x then x else best)) as [Hin Hmax].
    split.
    + destruct Hin as [E|Hin]; [|now right; right].
      rewrite <- E. destruct (snd best <? snd x); [right; now left | now left].
    + intros c Hc.
      assert (Hb : snd best <= snd (if snd best <? snd x then x else best)
                   /\ snd x <= snd (if snd best <? snd x then x else best)).
      { destruct (Z.ltb_spec (snd best) (snd x)); lia. }
      pose proof (Hmax _ (or_introl eq_refl)) as H0.
      destruct Hc as [<-|[<-|Hc]]; [lia | lia |].
      apply Hmax. now right.
Qed.

Lemma extractWithoutOrder_In query choices c s :
  In (c, s) (extractWithoutOrder scorer query choices) <->
  In c choices /\ s = scorer query c /\ 0 <= s.
Proof.
  unfold extractWithoutOrder. rewrite filter_In, in_map_iff. simpl.
  rewrite Z.leb_le. split.
  - intros [(x & [= -> <-] & Hx) Hs]. auto.
  - intros (Hc & -> & Hs). split; [exists c; auto | exact Hs].
Qed.

(** [extractOne] answers with a choice of greatest score. *)
Lemma extractOne_spec query choices best score :
  extractOne scorer query choices = Some (best, score) ->
  In best choices /\ score = scorer query best /\ 0 <= score /\
  forall c, In c choices -> scorer query c <= score.
Proof.
  unfold extractOne.
  destruct (extractWithoutOrder scorer query choices) as [|c0 t] eqn:E;
    [discriminate|].
  intros [= H].
  destruct (max_from_spec t c0) as [Hin Hmax]. rewrite H, <- E in Hin.
  apply extractWithoutOrder_In in Hin. destruct Hin as (Hb & Hs & H0).
  repeat split; auto.
  intros c Hc.
  destruct (Z.le_gt_cases 0 (scorer query c)) as [Hge|Hlt]; [|lia].
  assert (Hc' : In (c, scorer query c) (c0 :: t)).
  { rewrite <- E. apply extractWithoutOrder_In. auto. }
  apply Hmax in Hc'. rewrite H in Hc'. exact Hc'.
Qed.

(** With scores on the library's scale, a choice is always returned. *)
Lemma extractOne_Some query choices :
  choices <> [] -> (forall a b, 0 <= scorer a b) ->
  exists best score, extractOne scorer query choices = Some (best, score).
Proof.
  intros Hne Hpos. unfold extractOne.
  destruct (extractWithoutOrder scorer query choices) as [|c0 t] eqn:E.
  - exfalso. destruct choices as [|c cs]; [congruence|].
    assert (H : In (c, scorer query c)
                   (extractWithoutOrder scorer query (c :: cs))).
    { apply extractWithoutOrder_In. simpl. auto. }
    rewrite E in H. destruct H.
  - destruct (max_from c0 t) as [b s]. eauto.
Qed.

(** A name of [pop_names] selects at least one row of the table. *)
Lemma named_rows_names best :
  In best (pop_names pop_df) ->
  exists r rest, named_rows pop_df best = r :: rest /\ country r = best.
Proof.
  unfold pop_names, named_rows. rewrite unique_In, in_map_iff.
  intros (r & E & Hr).
  destruct (List.filter (fun r0 => String.eqb (country r0) best) pop_df)
    as [|r0 rest] eqn:F.
  - exfalso. rewrite filter_nil_iff in F. specialize (F r Hr).
    apply String.eqb_neq in F. congruence.
  - exists r0, rest. split; [reflexivity|].
    assert (H : In r0 (r0 :: rest)) by now left.
    rewrite <- F in H. apply filter_In in H. now apply String.eqb_eq.
Qed.

Lemma pop_names_nonempty : pop_df <> [] -> pop_names pop_df <> [].
Proof.
  unfold pop_names. destruct pop_df as [|r t]; [congruence | simpl; discriminate].
Qed.

Lemma exact_rows_nil cname :
  exact_rows lower pop_df cname = [] <->
  forall r, In r pop_df -> lower (country r) <> lower cname.
Proof.
  unfold exact_rows. rewrite filter_nil_iff.
  split; intros H r Hr; specialize (H r Hr); now apply String.eqb_neq.
Qed.

(** On the library's scale and with rows to choose from, [match_one]
    returns. *)
Lemma match_one_total cname :
  pop_df <> [] -> (forall a b, 0 <= scorer a b) ->
  exists v, match_one lower scorer pop_df cname = Ok v.
Proof.
  intros Hne Hpos. unfold match_one.
  destruct (exact_rows lower pop_df cname) as [|r rest]; [|simpl; eauto].
  destruct (extractOne_Some cname (pop_names pop_df)
              (pop_names_nonempty Hne) Hpos) as (best & score & E).
  rewrite E.
  destruct (85 <? score); [|eauto].
  apply extractOne_spec in E. destruct E as (Hb & _).
  destruct (named_rows_names best Hb) as (r & rest & -> & _). simpl. eauto.
Qed.

(** What the loop leaves in [pop_map]. *)
Lemma match_loop_lookup cnames : forall m pm,
  match_loop lower scorer pop_df cnames m = Ok pm ->
  (forall n, In n cnames ->
     exists v, match_one lower scorer pop_df n = Ok v /\ pm !! n = Some v) /\
  (forall n, ~ In n cnames -> pm !! n = m !! n).
Proof.
  induction cnames as [|c rest IH]; simpl; intros m pm H.
  - injection H as <-. split; [tauto | reflexivity].
  - apply bind_Ok in H. destruct H as (v & Hv & H).
    destruct (IH _ _ H) as [Hin Hout]. split.
    + intros n [<-|Hn]; [|now apply Hin].
      destruct (in_dec String.string_dec c rest) as [Hc|Hc]; [now apply Hin|].
      exists v. split; [exact Hv|].
      rewrite (Hout _ Hc). apply lookup_insert_eq.
    + intros n Hn. rewrite Hout by tauto.
      apply lookup_insert_ne. intros ->. tauto.
Qed.

Lemma match_loop_total cnames : forall m,
  (forall n, In n cnames -> exists v, match_one lower scorer pop_df n = Ok v) ->
  exists pm, match_loop lower scorer pop_df cnames m = Ok pm.
Proof.
  induction cnames as [|c rest IH]; simpl; intros m H; [eauto|].
  destruct (H c (or_introl eq_refl)) as [v ->]. simpl.
  apply IH. intros n Hn. apply H. now right.
Qed.

End ReconcilerFacts.

(** ** Facts about floats *)

Lemma SFcompare_key x y :
  SFcompare x y =
  match SF_key x, SF_key y with
  | Some a, Some b => Some (key_compare a b)
  | _, _ => None
  end.
Proof.
  destruct x as [sx|sx| |sx mx ex], y as [sy|sy| |sy my ey];
    try reflexivity;
    try (destruct sx; reflexivity); try (destruct sy; reflexivity);
    try (destruct sx, sy; reflexivity).
  unfold SFcompare, SF_key, key_compare.
  destruct sx, sy; cbn [fst snd]; try reflexivity.
  change (-1 ?= -1) with Eq. cbv iota.
  rewrite Z.compare_opp, (Z.compare_antisym ex ey).
  destruct (ex ?= ey); reflexivity.
Qed.

(** The strict order of keys, in a form for [lia]. *)
Lemma key_compare_Lt a b :
  key_compare a b = Lt <->
  fst (fst a) < fst (fst b) \/
  fst (fst a) = fst (fst b) /\
  (snd (fst a) < snd (fst b) \/
   snd (fst a) = snd (fst b) /\ snd a < snd b).
Proof.
  unfold key_compare.
  destruct (Z.compare_spec (fst (fst a)) (fst (fst b)));
    [destruct (Z.compare_spec (snd (fst a)) (snd (fst b)));
     [destruct (Z.compare_spec (snd a) (snd b))| |]| |];
    split; intros H'; try discriminate; try reflexivity; lia.
Qed.

Lemma key_compare_Eq a b : key_compare a b = Eq <-> a = b.
Proof.
  unfold key_compare. destruct a as [[a1 a2] a3], b as [[b1 b2] b3].
  cbn [fst snd].
  destruct (Z.compare_spec a1 b1);
    [destruct (Z.compare_spec a2 b2);
     [destruct (Z.compare_spec a3 b3)| |]| |];
    split; intros H'; try discriminate; try reflexivity;
    try (injection H' as -> -> ->); try lia; congruence.
Qed.

Lemma ltb_key x y :
  (x <? y)%float =
  match float_key x, float_key y with
  | Some a, Some b => match key_compare a b with Lt => true | _ => false end
  | _, _ => false
  end.
Proof.
  rewrite ltb_spec. unfold SFltb, float_key. rewrite SFcompare_key.
  destruct (SF_key (Prim2SF x)), (SF_key (Prim2SF y)); reflexivity.
Qed.

Lemma leb_key x y :
  (x <=? y)%float =
  match float_key x, float_key y with
  | Some a, Some b => match key_compare a b with Gt => false | _ => true end
  | _, _ => false
  end.
Proof.
  rewrite leb_spec. unfold SFleb, float_key. rewrite SFcompare_key.
  destruct (SF_key (Prim2SF x)), (SF_key (Prim2SF y)); reflexivity.
Qed.

(** [x < y] gives [x <= y]. *)
Lemma ltb_leb x y : (x <? y)%float = true -> (x <=? y)%float = true.
Proof.
  rewrite ltb_key, leb_key.
  destruct (float_key x), (float_key y); try discriminate.
  destruct (key_compare _ _); (discriminate || reflexivity).
Qed.

(** [x <= y] excludes [y < x]. *)
Lemma leb_not_ltb x y : (x <=? y)%float = true -> (y <? x)%float = false.
Proof.
  rewrite ltb_key, leb_key.
  destruct (float_key x) as [a|], (float_key y) as [b|]; try discriminate;
    try reflexivity.
  destruct (key_compare a b) eqn:E; try discriminate; intros _.
  - apply key_compare_Eq in E. subst b.
    destruct (key_compare a a) eqn:E'; try reflexivity.
    apply key_compare_Lt in E'. lia.
  - destruct (key_compare b a) eqn:E'; try reflexivity.
    apply key_compare_Lt in E, E'. lia.
Qed.

(** [x <= y < z] gives [x < z]. *)
Lemma leb_ltb_trans x y z :
  (x <=? y)%float = true -> (y <? z)%float = true -> (x <? z)%float = true.
Proof.
  rewrite !ltb_key, leb_key.
  destruct (float_key x) as [a|], (float_key y) as [b|],
    (float_key z) as [c|]; try discriminate.
  destruct (key_compare a b) eqn:E; try discriminate; intros _;
    destruct (key_compare b c) eqn:F; try discriminate; intros _.
  - apply key_compare_Eq in E. subst b. now rewrite F.
  - assert (G : key_compare a c = Lt)
      by (apply key_compare_Lt; apply key_compare_Lt in E, F; lia).
    now rewrite G.
Qed.

(** A float has no key exactly when it is [nan]. *)
Lemma float_key_None x : float_key x = None <-> is_nan x = true.
Proof.
  unfold float_key, Prim2SF. destruct (is_nan x); [now split|].
  destruct (is_zero x); [split; discriminate|].
  destruct (is_infinity x); [split; discriminate|].
  destruct (Z.frexp x) as [m e].
  destruct (shr_fexp prec emax _ _ _) as [mrs e'].
  destruct (shr_m mrs); split; discriminate.
Qed.

(** Among numbers, [x < y] fails only when [y <= x]. *)
Lemma ltb_false_leb x y :
  is_nan x = false -> is_nan y = false ->
  (x <? y)%float = false -> (y <=? x)%float = true.
Proof.
  intros Hx Hy. rewrite ltb_key, leb_key.
  destruct (float_key x) as [a|] eqn:Kx;
    [|apply float_key_None in Kx; congruence].
  destruct (float_key y) as [b|] eqn:Ky;
    [|apply float_key_None in Ky; congruence].
  destruct (key_compare a b) eqn:E; try discriminate; intros _.
  - apply key_compare_Eq in E. subst b.
    destruct (key_compare a a) eqn:E'; try reflexivity.
    assert (X : key_compare a a = Eq) by now apply key_compare_Eq.
    congruence.
  - destruct (key_compare b a) eqn:E'; try reflexivity.
    exfalso.
    assert (X : key_compare a b = Lt \/ key_compare a b = Eq).
    { destruct a as [[a1 a2] a3], b as [[b1 b2] b3].
      unfold key_compare in *. cbn [fst snd] in *.
      destruct (Z.compare_spec a1 b1), (Z.compare_spec b1 a1);
        try lia; try discriminate;
        destruct (Z.compare_spec a2 b2), (Z.compare_spec b2 a2);
        try lia; try discriminate;
        destruct (Z.compare_spec a3 b3), (Z.compare_spec b3 a3);
        try lia; try discriminate. }
    destruct X; congruence.
Qed.

(** Below a smaller bound there is nothing that a greater bound is below
    of. *)
Lemma ltb_below s t x :
  (s <? t)%float = true -> (t <=? x)%float = true -> (x <? s)%float = false.
Proof.
  intros Hst Htx. destruct (x <? s)%float eqn:E; [|reflexivity].
  pose proof (leb_ltb_trans _ _ _ Htx E) as H.
  pose proof (leb_not_ltb _ _ (ltb_leb _ _ Hst)) as H'. congruence.
Qed.

(** ** Facts about the synthesizer *)

(** The floor of line 98. *)
Lemma max_half_ge x : (0.5 <=? max_half x)%float = true.
Proof.
  unfold max_half. destruct (0.5 <? x)%float eqn:E.
  - now apply ltb_leb.
  - reflexivity.
Qed.

Lemma sides_of_In radius : In (sides_of radius) [4; 6; 8; 12]%nat.
Proof.
  unfold sides_of.
  destruct (radius <? _)%float; [simpl; tauto|].
  destruct (radius <? 2)%float; [simpl; tauto|].
  destruct (radius <? 4)%float; simpl; tauto.
Qed.

Section SynthesizerFacts.

Variable libm_pow : float -> float -> float.
Variable libm_cos : float -> float.
Variable libm_sin : float -> float.

(** The root is there unless the area is below zero. *)
Lemma float_pow_half_Ok x :
  (x <? 0)%float = false -> exists root, float_pow_half libm_pow x = Ok root.
Proof.
  intros H. unfold float_pow_half. rewrite H.
  destruct (is_nan x); [eauto|]. destruct (is_infinity x); [eauto|].
  destruct (x =? 0)%float; [eauto|]. destruct (x =? 1)%float; eauto.
Qed.

Lemma float_pow_half_Raise x e :
  float_pow_half libm_pow x = Raise e ->
  e = TypeError /\ (x <? 0)%float = true /\ is_infinity x = false.
Proof.
  unfold float_pow_half.
  destruct (is_nan x); [discriminate|].
  destruct (is_infinity x); [discriminate|].
  destruct (x =? 0)%float; [discriminate|].
  destruct (x <? 0)%float; [|destruct (x =? 1)%float; discriminate].
  intros [= <-]. auto.
Qed.

Lemma radius_of_Ok area :
  (area <? 0)%float = false ->
  exists root,
    float_pow_half libm_pow area = Ok root /\
    radius_of libm_pow area
    = Ok (max_half (root * 0.6)%float).
Proof.
  intros H. destruct (float_pow_half_Ok area H) as [root Hr].
  exists root. split; [exact Hr|]. unfold radius_of. now rewrite Hr.
Qed.

Lemma radius_of_Raise area e :
  radius_of libm_pow area = Raise e ->
  e = TypeError /\ (area <? 0)%float = true /\ is_infinity area = false.
Proof.
  unfold radius_of.
  destruct (float_pow_half libm_pow area) as [root|e'] eqn:E; [discriminate|].
  intros [= <-]. now apply float_pow_half_Raise.
Qed.

Lemma make_regular_polygon_length cx cy radius sides rotation :
  length (make_regular_polygon libm_cos libm_sin cx cy radius sides rotation)
  = sides.
Proof. unfold make_regular_polygon. now rewrite length_map, length_seq. Qed.

Lemma make_regular_polygon_nth cx cy radius sides rotation i :
  (i < sides)%nat ->
  nth i (make_regular_polygon libm_cos libm_sin cx cy radius sides rotation)
      (0, 0)%float
  = ((cx + radius
           * libm_cos (rotation + 2 * pi * Z2float (Z.of_nat i)
                                  / Z2float (Z.of_nat sides)))%float,
     (cy + radius
           * libm_sin (rotation + 2 * pi * Z2float (Z.of_nat i)
                                  / Z2float (Z.of_nat sides)))%float).
Proof.
  intros Hi. unfold make_regular_polygon.
  set (f := fun i0 : nat => _).
  rewrite (nth_indep _ (0, 0)%float (f 0%nat))
    by now rewrite length_map, length_seq.
  rewrite (map_nth f). now rewrite seq_nth.
Qed.

End SynthesizerFacts.

(** ** Facts about the pipeline *)

Lemma kept_app w1 w2 : kept (w1 ++ w2) = kept w1 ++ kept w2.
Proof. apply List.filter_app. Qed.

Lemma kept_skip row w : has_boundary row = false -> kept (row :: w) = kept w.
Proof. unfold kept. simpl. now intros ->. Qed.

Lemma kept_keep row w :
  has_boundary row = true -> kept (row :: w) = row :: kept w.
Proof. unfold kept. simpl. now intros ->. Qed.

Lemma kept_In row world :
  In row (kept world) <->
  In row world /\
  exists geom, geometry row = Some geom /\ is_empty geom = false.
Proof.
  unfold kept. rewrite filter_In. unfold has_boundary.
  split; intros [Hin H]; (split; [exact Hin|]).
  - destruct (geometry row) as [geom|]; [|discriminate].
    exists geom. split; [reflexivity|]. now destruct (is_empty geom).
  - destruct H as (geom & -> & ->). reflexivity.
Qed.

Lemma has_boundary_false row :
  has_boundary row = false <->
  geometry row = None \/
  exists geom, geometry row = Some geom /\ is_empty geom = true.
Proof.
  unfold has_boundary.
  destruct (geometry row) as [geom|]; [destruct (is_empty geom) eqn:E|];
    simpl; split.
  - intros _. right. exists geom. auto.
  - reflexivity.
  - discriminate.
  - intros [H|(g & [= <-] & H)]; congruence.
  - now left.
  - reflexivity.
Qed.

Lemma mapM_cons {A B : Type} (f : A -> result B) x l :
  mapM f (x :: l) = y ← f x; k ← mapM f l; Ok (y :: k).
Proof. reflexivity. Qed.

Lemma mapM_app {A B : Type} (f : A -> result B) l1 l2 :
  mapM f (l1 ++ l2) = p1 ← mapM f l1; p2 ← mapM f l2; Ok (p1 ++ p2).
Proof.
  induction l1 as [|x t IH].
  - simpl. destruct (mapM f l2); reflexivity.
  - rewrite <- app_comm_cons, !mapM_cons, IH.
    destruct (f x) as [y|e]; [|reflexivity]. cbn [mbind result_bind].
    destruct (mapM f t) as [p1|e]; [|reflexivity]. cbn [mbind result_bind].
    destruct (mapM f l2) as [p2|e]; reflexivity.
Qed.

Lemma mapM_Ok_Forall2 {A B : Type} (f : A -> result B) l : forall k,
  mapM f l = Ok k <-> Forall2 (fun x y => f x = Ok y) l k.
Proof.
  induction l as [|x t IH]; intros k.
  - split; [intros [= <-]; constructor | intros H; now inversion H].
  - rewrite mapM_cons. split.
    + intros H. apply bind_Ok in H. destruct H as (y & Hy & H).
      apply bind_Ok in H. destruct H as (k' & Hk & H).
      injection H as <-. constructor; [exact Hy | now apply IH].
    + intros H. inversion H as [|? y ? k' Hy Hk]; subst.
      apply IH in Hk. now rewrite Hy, Hk.
Qed.

Lemma mapM_Raise {A B : Type} (f : A -> result B) l e :
  mapM f l = Raise e -> exists x, In x l /\ f x = Raise e.
Proof.
  induction l as [|x t IH]; [discriminate|].
  rewrite mapM_cons.
  destruct (f x) as [y|e'] eqn:E; cbn [mbind result_bind].
  - destruct (mapM f t) as [k|e'']; [discriminate|].
    intros [= <-]. destruct IH as (x' & Hin & Hx); [reflexivity|].
    exists x'. split; [now right | exact Hx].
  - intros [= <-]. exists x. split; [now left | exact E].
Qed.

Section PipelineFacts.

Variable lower : string -> string.
Variable scorer : string -> string -> Z.
Variable libm_pow : float -> float -> float.
Variable libm_cos : float -> float.
Variable libm_sin : float -> float.

#[local] Abbreviation polygon := (polygon_of libm_pow libm_cos libm_sin).
#[local] Abbreviation loop := (build_loop libm_pow libm_cos libm_sin).

Lemma record_of_eq pop_map row :
  record_of pop_map row =
  m ← pop_millions (default None (pop_map !! reg_country row));
  Ok (mkOutputRecord (reg_country row) (iso3 row)
        (default None (pop_map !! reg_country row)) m).
Proof. reflexivity. Qed.

Lemma polygon_of_kept row :
  has_boundary row = true ->
  exists geom,
    geometry row = Some geom /\ is_empty geom = false /\
    polygon row
    = synthesize libm_pow libm_cos libm_sin (representative_point geom)
        (area geom).
Proof.
  unfold has_boundary, polygon_of.
  destruct (geometry row) as [geom|]; [|discriminate].
  intros H. exists geom. repeat split. now destruct (is_empty geom).
Qed.

(** The second loop succeeds exactly when every kept row gives a polygon
    and a record, and it collects them in order. *)
Lemma build_loop_Ok pop_map world : forall plotted countries plotted' countries',
  loop pop_map world plotted countries = Ok (plotted', countries') <->
  exists ps cs,
    mapM polygon (kept world) = Ok ps /\
    mapM (record_of pop_map) (kept world) = Ok cs /\
    plotted' = plotted ++ ps /\ countries' = countries ++ cs.
Proof.
  induction world as [|row rest IH]; intros p c p' c'.
  - simpl. split.
    + intros [= <- <-]. exists [], []. now rewrite !app_nil_r.
    + intros (ps & cs & [= <-] & [= <-] & -> & ->). now rewrite !app_nil_r.
  - destruct (has_boundary row) eqn:B.
    + rewrite kept_keep by exact B.
      destruct (polygon_of_kept row B) as (geom & G & E & P).
      cbn [build_loop]. rewrite G, E, !mapM_cons, P, record_of_eq.
      unfold synthesize.
      destruct (representative_point geom) as [cx cy]. cbn [fst snd].
      destruct (radius_of libm_pow (area geom)) as [radius|e];
        cbn [mbind result_bind].
      2:{ split; [discriminate | intros (ps & cs & H & _); discriminate]. }
      destruct (pop_millions (default None (pop_map !! reg_country row)))
        as [m|e]; cbn [mbind result_bind].
      2:{ split; [discriminate|]. intros (ps & cs & _ & H & _).
          discriminate. }
      rewrite IH. split.
      * intros (ps & cs & Hps & Hcs & -> & ->).
        rewrite Hps, Hcs. cbn [mbind result_bind].
        eexists _, _. split; [reflexivity|]. split; [reflexivity|].
        now rewrite <- !app_assoc.
      * intros (ps & cs & Hps & Hcs & -> & ->).
        destruct (mapM polygon (kept rest)) as [ps'|];
          [|discriminate].
        destruct (mapM (record_of pop_map) (kept rest)) as [cs'|];
          [|discriminate].
        injection Hps as <-. injection Hcs as <-.
        exists ps', cs'. now rewrite <- !app_assoc.
    + rewrite kept_skip by exact B.
      cbn [build_loop].
      apply has_boundary_false in B.
      destruct B as [->|(geom & -> & ->)]; apply IH.
Qed.

(** Where the second loop raises. *)
Lemma build_loop_Raise pop_map world : forall plotted countries e,
  loop pop_map world plotted countries = Raise e ->
  exists row, In row (kept world) /\
    (polygon row = Raise e \/ record_of pop_map row = Raise e).
Proof.
  induction world as [|row rest IH]; intros p c e; [discriminate|].
  destruct (has_boundary row) eqn:B.
  - rewrite kept_keep by exact B.
    destruct (polygon_of_kept row B) as (geom & G & E & P).
    cbn [build_loop]. rewrite G, E.
    destruct (representative_point geom) as [cx cy] eqn:A.
    destruct (radius_of libm_pow (area geom)) as [radius|e'] eqn:R;
      cbn [mbind result_bind].
    2:{ intros [= <-]. exists row. split; [now left|]. left.
        rewrite P. unfold synthesize. now rewrite R. }
    destruct (pop_millions (default None (pop_map !! reg_country row)))
      as [m|e'] eqn:M; cbn [mbind result_bind].
    2:{ intros [= <-]. exists row. split; [now left|]. right.
        rewrite record_of_eq. now rewrite M. }
    intros H. destruct (IH _ _ _ H) as (r & Hin & Hr).
    exists r. split; [now right | exact Hr].
  - rewrite kept_skip by exact B.
    cbn [build_loop].
    apply has_boundary_false in B.
    destruct B as [->|(geom & -> & ->)]; apply IH.
Qed.

End PipelineFacts.

(** ** More facts about the reconciler *)

Lemma filter_head_In {A : Type} (f : A -> bool) l x t :
  List.filter f l = x :: t -> In x l /\ f x = true.
Proof.
  intros H. apply filter_In. rewrite H. now left.
Qed.

Section ReconcilerMore.

Variable lower : string -> string.
Variable scorer : string -> string -> Z.
Variable pop_df : list PopRow.

Lemma extractOne_None_iff query choices :
  extractOne scorer query choices = None <->
  forall c, In c choices -> scorer query c < 0.
Proof.
  unfold extractOne.
  destruct (extractWithoutOrder scorer query choices) as [|c0 t] eqn:E.
  - split; [intros _ | reflexivity].
    intros c Hc. destruct (Z.lt_ge_cases (scorer query c) 0) as [|Hge];
      [assumption|].
    exfalso.
    assert (H : In (c, scorer query c)
                   (extractWithoutOrder scorer query choices))
      by (apply extractWithoutOrder_In; auto).
    rewrite E in H. destruct H.
  - split; [discriminate|]. intros H. exfalso.
    assert (H0 : In c0 (extractWithoutOrder scorer query choices))
      by (rewrite E; now left).
    destruct c0 as [c s]. apply extractWithoutOrder_In in H0.
    destruct H0 as (Hc & -> & Hs). specialize (H c Hc). lia.
Qed.

Lemma pop_names_In n :
  In n (pop_names pop_df) <-> exists r, In r pop_df /\ country r = n.
Proof.
  unfold pop_names. rewrite unique_In, in_map_iff.
  split; intros (r & H1 & H2); exists r; auto.
Qed.

(** Where [match_one] raises: [iloc[0]] never does. *)
Lemma match_one_Raise cname e :
  match_one lower scorer pop_df cname = Raise e ->
  e = TypeError /\ exact_rows lower pop_df cname = [] /\
  extractOne scorer cname (pop_names pop_df) = None.
Proof.
  unfold match_one.
  destruct (exact_rows lower pop_df cname) as [|r rest]; [|discriminate].
  destruct (extractOne scorer cname (pop_names pop_df)) as [[best score]|] eqn:E.
  - destruct (85 <? score); [|discriminate].
    apply extractOne_spec in E. destruct E as (Hb & _).
    destruct (named_rows_names pop_df best Hb) as (r & rest & -> & _).
    discriminate.
  - intros [= <-]. auto.
Qed.

(** What a value that [match_one] returns goes back to. *)
Lemma match_one_Some cname q :
  match_one lower scorer pop_df cname = Ok (Some q) ->
  exists r, In r pop_df /\ population r = q /\
            (lower (country r) = lower cname \/
             85 < scorer cname (country r)).
Proof.
  unfold match_one.
  destruct (exact_rows lower pop_df cname) as [|r rest] eqn:X.
  - destruct (extractOne scorer cname (pop_names pop_df))
      as [[best score]|] eqn:E; [|discriminate].
    destruct (85 <? score) eqn:S; [|discriminate].
    apply Z.ltb_lt in S.
    apply extractOne_spec in E. destruct E as (Hb & Hs & _).
    destruct (named_rows_names pop_df best Hb) as (r & rest & Hr & Hc).
    rewrite Hr. simpl. intros [= <-].
    apply filter_head_In in Hr. destruct Hr as [Hin _].
    exists r. repeat split; auto. right. subst. exact S.
  - simpl. intros [= <-].
    apply filter_head_In in X. destruct X as [Hin He].
    exists r. repeat split; auto. left. now apply String.eqb_eq.
Qed.

End ReconcilerMore.

Lemma match_loop_Raise lower scorer pop_df cnames e : forall pop_map,
  match_loop lower scorer pop_df cnames pop_map = Raise e ->
  exists c, In c cnames /\ match_one lower scorer pop_df c = Raise e.
Proof.
  induction cnames as [|c rest IH]; intros m; simpl; [discriminate|].
  destruct (match_one lower scorer pop_df c) as [v|e'] eqn:M; simpl.
  - intros H. destruct (IH _ H) as (c' & Hin & Hc). eauto.
  - intros [= <-]. eauto.
Qed.

(** ** Facts about a run *)

Section MainFacts.

Variable lower : string -> string.
Variable scorer : string -> string -> Z.
Variable libm_pow : float -> float -> float.
Variable libm_cos : float -> float.
Variable libm_sin : float -> float.

#[local] Abbreviation polygon := (polygon_of libm_pow libm_cos libm_sin).
#[local] Abbreviation run := (main lower scorer libm_pow libm_cos libm_sin).
#[local] Abbreviation expected := (expected_record lower scorer).
#[local] Abbreviation answer pop_df cname :=
  (value_of (match_one lower scorer pop_df cname)).

(** The records of rows whose names the map holds. *)
Lemma records_Ok pop_df pop_map l : forall cs,
  (forall row, In row l ->
     default None (pop_map !! reg_country row)
     = answer pop_df (reg_country row)) ->
  (mapM (record_of pop_map) l = Ok cs <->
   (forall row, In row l ->
      exists m, pop_millions (answer pop_df (reg_country row)) = Ok m) /\
   cs = map (expected pop_df) l).
Proof.
  induction l as [|row t IH]; intros cs Hmap.
  - simpl. split; [intros [= <-]; split; [intros ? []|reflexivity]|].
    now intros [_ ->].
  - rewrite mapM_cons, record_of_eq, (Hmap row (or_introl eq_refl)).
    assert (Ht : forall r, In r t ->
              default None (pop_map !! reg_country r)
              = answer pop_df (reg_country r))
      by (intros r Hr; apply Hmap; now right).
    destruct (pop_millions (answer pop_df (reg_country row))) as [m|e] eqn:M;
      cbn [mbind result_bind].
    + destruct (mapM (record_of pop_map) t) as [cs'|e] eqn:T;
        cbn [mbind result_bind].
      * destruct (proj1 (IH cs' Ht) eq_refl) as [Hall ->]. split.
        -- intros [= <-]. split.
           ++ intros r [<-|Hr]; [eauto | now apply Hall].
           ++ cbn [map]. f_equal. unfold expected_record. now rewrite M.
        -- intros [_ ->]. cbn [map]. do 2 f_equal.
           unfold expected_record. now rewrite M.
      * split; [discriminate|]. intros [Hall _]. exfalso.
        assert (X : Raise e = Ok (map (expected pop_df) t)).
        { apply (IH _ Ht). split; [|reflexivity].
          intros r Hr. apply Hall. now right. }
        discriminate.
    + split; [discriminate|]. intros [Hall _].
      destruct (Hall row (or_introl eq_refl)) as [m Hm]. congruence.
Qed.

(** A run succeeds exactly when every name is reconciled, every kept
    boundary is synthesized and every kept row's population converts,
    and then its output is determined. *)
Lemma main_Ok_iff world rows out :
  run world rows = Ok out <->
  (forall row, In row world ->
     exists v, match_one lower scorer (download_population_data rows)
                 (reg_country row) = Ok v) /\
  (forall row, In row (kept world) ->
     exists m, pop_millions
                 (answer (download_population_data rows) (reg_country row))
               = Ok m) /\
  exists ps, mapM polygon (kept world) = Ok ps /\
    out = mkOutput ps POP_YEAR
            (map (expected (download_population_data rows)) (kept world)).
Proof.
  unfold main. set (pop_df := download_population_data rows).
  assert (Hmap : forall pm,
    match_loop lower scorer pop_df (map reg_country world) ∅ = Ok pm ->
    forall row, In row (kept world) ->
      default None (pm !! reg_country row) = answer pop_df (reg_country row)).
  { intros pm Hpm row Hrow. apply match_loop_lookup in Hpm.
    destruct Hpm as [Hin _]. apply kept_In in Hrow. destruct Hrow as [Hrow _].
    destruct (Hin (reg_country row)) as (v & Hv & Hl); [now apply in_map|].
    now rewrite Hv, Hl. }
  split.
  - intros H. apply bind_Ok in H. destruct H as (pm & Hpm & H).
    apply bind_Ok in H. destruct H as ([ps cs] & Hb & H).
    injection H as <-. apply build_loop_Ok in Hb.
    destruct Hb as (ps' & cs' & Hps & Hcs & -> & ->). cbn [fst snd app].
    apply (records_Ok pop_df pm _ _ (Hmap pm Hpm)) in Hcs.
    destruct Hcs as [Hmil ->]. split; [|split; [exact Hmil|eauto]].
    intros row Hrow. apply match_loop_lookup in Hpm. destruct Hpm as [Hin _].
    destruct (Hin (reg_country row)) as (v & Hv & _); [now apply in_map|].
    eauto.
  - intros (Hall & Hmil & ps & Hps & ->).
    destruct (match_loop_total lower scorer pop_df (map reg_country world) ∅)
      as [pm Hpm].
    { intros n Hn. apply in_map_iff in Hn. destruct Hn as (row & <- & Hrow).
      now apply Hall. }
    rewrite Hpm. cbn [mbind result_bind].
    assert (Hb : build_loop libm_pow libm_cos libm_sin pm world [] []
                 = Ok (ps, map (expected pop_df) (kept world))).
    { apply build_loop_Ok. exists ps, (map (expected pop_df) (kept world)).
      split; [exact Hps|]. split; [|split; reflexivity].
      apply (records_Ok pop_df pm _ _ (Hmap pm Hpm)). auto. }
    now rewrite Hb.
Qed.

(** Kept rows whose areas are not below zero are all synthesized. *)
Lemma mapM_polygon_total world :
  (forall row geom, In row world -> geometry row = Some geom ->
                    (area geom <? 0)%float = false) ->
  exists ps, mapM polygon (kept world) = Ok ps.
Proof.
  induction world as [|row rest IH]; intros H; [simpl; eauto|].
  destruct IH as [ps Hps]; [intros r g Hr; apply H; now right|].
  destruct (has_boundary row) eqn:B;
    [rewrite kept_keep by exact B | rewrite kept_skip by exact B; eauto].
  destruct (polygon_of_kept libm_pow libm_cos libm_sin row B)
    as (geom & G & _ & P).
  rewrite mapM_cons, P, Hps. unfold synthesize.
  destruct (radius_of_Ok libm_pow (area geom)
              (H row geom (or_introl eq_refl) G)) as (root & _ & ->).
  cbn. eauto.
Qed.

(** The answer of the reconciler is null or a population of the table. *)
Lemma answer_from_table pop_df cname :
  answer pop_df cname = None \/
  exists p, In p pop_df /\ answer pop_df cname = Some (population p).
Proof.
  destruct (match_one lower scorer pop_df cname) as [[v|]|e] eqn:M;
    simpl; auto.
  right. apply match_one_Some in M. destruct M as (p & Hp & <- & _). eauto.
Qed.

(** A run returns as soon as the table has a row, the scores are on the
    library's scale, no kept boundary has an area below zero and every
    population of the table converts to millions. *)
Lemma main_total world rows :
  download_population_data rows <> [] ->
  (forall a b, 0 <= scorer a b) ->
  (forall row geom, In row world -> geometry row = Some geom ->
                    (area geom <? 0)%float = false) ->
  (forall p, In p (download_population_data rows) ->
     exists m, pop_millions (Some (population p)) = Ok m) ->
  exists out, run world rows = Ok out.
Proof.
  intros Hne Hpos Hareas Hpops.
  destruct (mapM_polygon_total world Hareas) as [ps Hps].
  eexists. apply main_Ok_iff. split; [|split].
  - intros row _. now apply match_one_total.
  - intros row _.
    destruct (answer_from_table (download_population_data rows)
                (reg_country row)) as [->|(p & Hp & ->)]; [simpl; eauto|].
    now apply Hpops.
  - exists ps. split; [exact Hps | reflexivity].
Qed.

End MainFacts.

(** ** Facts about the conversion to millions *)

Lemma Qceiling_bounds x :
  (inject_Z (Qceiling x - 1) < x)%Q /\ (x <= inject_Z (Qceiling x))%Q.
Proof.
  split; [apply Qceiling_lt | apply Qle_ceiling].
Qed.

(** [math.ceil] answers with the exact ceiling of the float it is given. *)
Lemma float_ceil_Ok x z :
  float_ceil x = Ok z -> z = Qceiling (float_Q x).
Proof.
  unfold float_ceil, float_Q.
  destruct (Prim2SF x); try discriminate; now intros [= <-].
Qed.

Lemma pop_millions_falsy v :
  truthy v = false -> pop_millions (Some v) = Ok None.
Proof. intros H. unfold pop_millions. now rewrite H. Qed.

Lemma pop_millions_truthy v m :
  truthy v = true -> pop_millions (Some v) = Ok m ->
  exists z, m = Some z /\ float_ceil (to_float v / 1000000)%float = Ok z.
Proof.
  intros H. unfold pop_millions. rewrite H.
  destruct (float_ceil _) as [z|e]; [|discriminate].
  intros [= <-]. eauto.
Qed.

(** ** The example run *)

Section ExampleRun.

Import Examples.

Lemma toy_scorer_nonneg a b : 0 <= toy_scorer a b.
Proof.
  unfold toy_scorer.
  destruct (String.eqb _ _); [lia|]. destruct (String.prefix _ _); lia.
Qed.

Lemma world0_areas row geom :
  In row world0 -> geometry row = Some geom -> (area geom <? 0)%float = false.
Proof.
  simpl. intros H G.
  repeat (destruct H as [<-|H]; [simpl in G; try discriminate;
                                 injection G as <-; reflexivity|]).
  destruct H.
Qed.

Lemma rows0_convert p :
  In p (download_population_data rows0) ->
  exists m, pop_millions (Some (population p)) = Ok m.
Proof.
  simpl. intros H.
  repeat (destruct H as [<-|H]; [eexists; vm_compute; reflexivity|]).
  destruct H.
Qed.

(** The run on [world0] and [rows0] succeeds and saves [records0]. *)
Lemma run0 :
  exists ps, main str_lower toy_scorer sqrt_pow poly_cos poly_sin world0 rows0
             = Ok (mkOutput ps POP_YEAR records0).
Proof.
  exists (match main str_lower toy_scorer sqrt_pow poly_cos poly_sin
                  world0 rows0 with
          | Ok o => polygons o
          | Raise _ => []
          end).
  vm_compute. reflexivity.
Qed.

End ExampleRun.

(** * The claims *)

(** C1, as the code has it: in every output record,
    [population_millions] is null when the region is unmatched or the
    raw population is zero; for every other raw population, negative
    ones included, it is the ceiling of the binary64 quotient of the raw
    population (as a float) by 1,000,000: the integer [m] with
    [m - 1 < quotient <= m]. *)
Theorem C1_population_millions lower scorer libm_pow libm_cos libm_sin
    world rows out :
  main lower scorer libm_pow libm_cos libm_sin world rows = Ok out ->
  forall rec, In rec (countries out) ->
    match population_raw rec with
    | None => population_millions rec = None
    | Some v =>
        (truthy v = false -> population_millions rec = None) /\
        (truthy v = true ->
           exists m,
             population_millions rec = Some m /\
             float_ceil (to_float v / 1000000)%float = Ok m /\
             m = Qceiling (float_Q (to_float v / 1000000)%float) /\
             (inject_Z (m - 1) < float_Q (to_float v / 1000000)%float)%Q /\
             (float_Q (to_float v / 1000000)%float <= inject_Z m)%Q)
    end.
Proof.
  intros Hmain rec Hrec.
  apply main_Ok_iff in Hmain. destruct Hmain as (_ & Hmil & ps & _ & ->).
  cbn [countries] in Hrec. apply in_map_iff in Hrec.
  destruct Hrec as (row & <- & Hrow).
  destruct (Hmil row Hrow) as [m Hm].
  unfold expected_record. cbn [population_raw population_millions].
  rewrite Hm. cbn [value_of].
  destruct (value_of _) as [v|]; [|now injection Hm as <-]. split.
  - intros Hv. rewrite (pop_millions_falsy v Hv) in Hm. now injection Hm as <-.
  - intros Hv. destruct (pop_millions_truthy v m Hv Hm) as (z & -> & Hz).
    exists z. split; [reflexivity|]. split; [exact Hz|].
    pose proof (float_ceil_Ok _ _ Hz) as Hq. split; [exact Hq|].
    rewrite Hq. apply Qceiling_bounds.
Qed.

(** C1 on the example run: Russia's 144,000,001 is 145 millions. *)
Lemma C1_population_millions_witness :
  exists ps,
    main Examples.str_lower Examples.toy_scorer Examples.sqrt_pow
      Examples.poly_cos Examples.poly_sin Examples.world0 Examples.rows0
    = Ok (mkOutput ps POP_YEAR Examples.records0) /\
    exists m,
      Some 145 = Some m /\
      float_ceil (Z2float 144000001 / 1000000)%float = Ok m /\
      m = Qceiling (float_Q (Z2float 144000001 / 1000000)%float) /\
      (inject_Z (m - 1) < float_Q (Z2float 144000001 / 1000000)%float)%Q /\
      (float_Q (Z2float 144000001 / 1000000)%float <= inject_Z m)%Q.
Proof.
  destruct run0 as [ps Hrun]. exists ps. split; [exact Hrun|].
  exact (proj2 (C1_population_millions _ _ _ _ _ _ _ _ Hrun
                  (mkOutputRecord "Russia" "RUS" (Some (PyInt 144000001))
                     (Some 145))
                  (or_introl eq_refl)) eq_refl).
Defined.

(** C1 as stated fails.  A raw population of -1 gives 0 millions, not
    null.  And the quotient is a binary64 one: 17,179,869,184,000,001
    gives 17,179,869,184 millions where the exact ceiling is one more,
    and the positive float 0x0.00000000007e8p-1022 gives 0. *)
Lemma C1_negative_population_counterexample :
  ~ (forall out,
       main Examples.str_lower Examples.toy_scorer Examples.sqrt_pow
         Examples.poly_cos Examples.poly_sin
         Examples.world0 Examples.rows0 = Ok out ->
       forall rec n, In rec (countries out) ->
         population_raw rec = Some (PyInt n) -> n <= 0 ->
         population_millions rec = None) /\
  pop_millions (Some (PyInt 17179869184000001)) = Ok (Some 17179869184) /\
  Qceiling (17179869184000001 / 1000000) = 17179869185 /\
  pop_millions (Some (PyFloat 0x0.00000000007e8p-1022)) = Ok (Some 0).
Proof.
  split; [|split; [|split]]; try reflexivity.
  intros H. destruct run0 as [ps Hrun].
  specialize (H _ Hrun
                (mkOutputRecord "Atlantis" "ATL" (Some (PyInt (-1))) (Some 0))
                (-1)).
  simpl in H. discriminate H; [tauto | reflexivity | lia].
Qed.

(** C2, as the code has it: the year is selected on all rows, parseable
    or not, and unparseable rows are dropped afterwards.  If any row
    carries the target year the table is the parseable rows of that year,
    in order.  Otherwise every row of the table is a parseable row that
    has the latest year among all rows of its name, no name has two rows,
    and a name is present as soon as its latest rows all parse. *)
Theorem C2_year_selection_then_dropna rows :
  (has_year POP_YEAR rows = true ->
     download_population_data rows =
     dropna (List.filter (fun r => raw_year r =? POP_YEAR) rows) /\
     forall p, In p (download_population_data rows) -> year p = POP_YEAR) /\
  (has_year POP_YEAR rows = false ->
     (forall p, In p (download_population_data rows) ->
        exists r, In r rows /\ raw_population r = Some (population p) /\
                  country p = raw_country r /\ year p = raw_year r /\
                  forall r', In r' rows -> raw_country r' = raw_country r ->
                             raw_year r' <= raw_year r) /\
     List.NoDup (map country (download_population_data rows)) /\
     (forall r, In r rows ->
        (forall r', In r' rows -> raw_country r' = raw_country r ->
           (forall r'', In r'' rows -> raw_country r'' = raw_country r ->
                        raw_year r'' <= raw_year r') ->
           raw_population r' <> None) ->
        exists p, In p (download_population_data rows) /\
                  country p = raw_country r)).
Proof.
  unfold download_population_data, select_year. split; intros Hy; rewrite Hy.
  - split; [reflexivity|].
    intros p Hp. apply dropna_In in Hp. destruct Hp as (r & Hr & _ & _ & ->).
    apply filter_In in Hr. destruct Hr as [_ Hr]. now apply Z.eqb_eq.
  - pose proof (sort_values_perm rows) as Hperm.
    pose proof (sort_values_sorted rows) as Hsorted.
    assert (Hlatest : forall r, In r (groupby_tail1 (sort_values rows)) ->
              In r rows /\
              forall r', In r' rows -> raw_country r' = raw_country r ->
                         raw_year r' <= raw_year r).
    { intros r Hr. split.
      - eapply Permutation_in; [exact Hperm|]. now apply groupby_tail1_incl.
      - intros r' Hr'. apply (groupby_tail1_latest _ _ Hsorted Hr).
        eapply Permutation_in; [symmetry; exact Hperm | exact Hr']. }
    split; [|split].
    + intros p Hp. apply dropna_In in Hp.
      destruct Hp as (r & Hr & Hpop & Hc & Hyr).
      destruct (Hlatest r Hr) as [Hin Hmax]. exists r. auto.
    + apply dropna_names_NoDup, groupby_tail1_NoDup.
    + intros r Hr Hparse.
      destruct (groupby_tail1_names (sort_values rows) r) as (r0 & H0 & E0).
      { eapply Permutation_in; [symmetry; exact Hperm | exact Hr]. }
      destruct (Hlatest r0 H0) as [Hin Hmax].
      destruct (raw_population r0) as [q|] eqn:Q.
      * exists (mkPopRow (raw_country r0) (raw_year r0) q). split; [|exact E0].
        apply dropna_In. exists r0. simpl. auto.
      * exfalso. apply (Hparse r0 Hin E0); [|exact Q].
        intros r'' H'' E''. apply Hmax; [exact H'' | congruence].
Qed.

(** C2 on two tables: one with rows of 2023, one without, where name A
    keeps its row of 2022. *)
Lemma C2_year_selection_then_dropna_witness :
  (forall p, In p (download_population_data Examples.rows0) ->
             year p = POP_YEAR) /\
  List.NoDup (map country (download_population_data Examples.rows1)) /\
  exists p, In p (download_population_data Examples.rows1) /\ country p = "A".
Proof.
  split; [|split].
  - exact (proj2 (proj1 (C2_year_selection_then_dropna Examples.rows0)
                    eq_refl)).
  - exact (proj1 (proj2 (proj2 (C2_year_selection_then_dropna Examples.rows1)
                           eq_refl))).
  - refine (proj2 (proj2 (proj2 (C2_year_selection_then_dropna Examples.rows1)
                            eq_refl))
              (mkRawRow "A" 2022 (Some (PyInt 5))) _ _).
    + simpl. tauto.
    + intros r' Hin Hname Hlatest.
      simpl in Hin. destruct Hin as [<-|[<-|[<-|[<-|[]]]]];
        try discriminate Hname; try discriminate.
      pose proof (Hlatest (mkRawRow "A" 2022 (Some (PyInt 5)))
                    (or_intror (or_introl eq_refl)) eq_refl) as X.
      simpl in X. lia.
Defined.

(** C2 as stated fails, in both branches: with no row of the target year,
    name B loses its parseable row of 2019 because its row of 2021 does
    not parse; and an unparseable row of the target year empties the
    table where the stated order would fall back to the latest rows. *)
Lemma C2_discard_before_selection_counterexample :
  download_population_data Examples.rows1
    = [mkPopRow "A" 2022 (PyInt 5)] /\
  spec_loader Examples.rows1
    = [mkPopRow "A" 2022 (PyInt 5); mkPopRow "B" 2019 (PyInt 7)] /\
  download_population_data Examples.rows2 = [] /\
  spec_loader Examples.rows2
    = [mkPopRow "A" 2022 (PyInt 5); mkPopRow "B" 2021 (PyInt 7)] /\
  ~ (forall rows, download_population_data rows = spec_loader rows).
Proof.
  repeat split; try reflexivity.
  intros H. specialize (H Examples.rows2). discriminate H.
Qed.

(** C3: for a name with no exact match up to case, whatever
    [extractOne] answers is a table name of greatest score; above 85 the
    reconciler returns the population of the first row of that name, at
    85 or below it returns null. *)
Theorem C3_fuzzy_threshold lower scorer pop_df cname best score :
  (forall r, In r pop_df -> lower (country r) <> lower cname) ->
  extractOne scorer cname (pop_names pop_df) = Some (best, score) ->
  (In best (pop_names pop_df) /\ score = scorer cname best /\
   forall n, In n (pop_names pop_df) -> scorer cname n <= score) /\
  (85 < score ->
     exists pre r post,
       pop_df = pre ++ r :: post /\ country r = best /\
       (forall x, In x pre -> country x <> best) /\
       match_one lower scorer pop_df cname = Ok (Some (population r))) /\
  (score <= 85 -> match_one lower scorer pop_df cname = Ok None).
Proof.
  intros Hno Hext. apply exact_rows_nil in Hno.
  pose proof (extractOne_spec _ _ _ _ _ Hext) as (Hb & Hs & _ & Hmax).
  split; [auto|]. unfold match_one. rewrite Hno, Hext. split.
  - intros Hgt. apply Z.ltb_lt in Hgt. rewrite Hgt.
    destruct (named_rows_names pop_df best Hb) as (r & rest & Hr & Hc).
    destruct (filter_first _ _ _ _ Hr) as (pre & post & Hsplit & Hpre & _).
    exists pre, r, post. rewrite Hr. repeat split; auto.
    intros x Hx. apply String.eqb_neq. now apply Hpre.
  - intros Hle. apply Z.ltb_ge in Hle. now rewrite Hle.
Qed.

(** C3 on the example table: Russia is matched through its best choice,
    Mars stays unmatched. *)
Lemma C3_fuzzy_threshold_witness :
  match_one Examples.str_lower Examples.toy_scorer
    (download_population_data Examples.rows0) "Mars" = Ok None /\
  exists pre r post,
    download_population_data Examples.rows0 = pre ++ r :: post /\
    country r = "Russian Federation" /\
    (forall x, In x pre -> country x <> "Russian Federation") /\
    match_one Examples.str_lower Examples.toy_scorer
      (download_population_data Examples.rows0) "Russia"
    = Ok (Some (population r)).
Proof.
  split.
  - refine (proj2 (proj2 (C3_fuzzy_threshold Examples.str_lower
              Examples.toy_scorer (download_population_data Examples.rows0)
              "Mars" "Russian Federation" 30 _ _)) _).
    + intros r Hin. simpl in Hin.
      destruct Hin as [<-|[<-|[<-|[<-|[<-|[]]]]]]; discriminate.
    + reflexivity.
    + lia.
  - refine (proj1 (proj2 (C3_fuzzy_threshold Examples.str_lower
              Examples.toy_scorer (download_population_data Examples.rows0)
              "Russia" "Russian Federation" 90 _ _)) _).
    + intros r Hin. simpl in Hin.
      destruct Hin as [<-|[<-|[<-|[<-|[<-|[]]]]]]; discriminate.
    + reflexivity.
    + lia.
Defined.

(** C4: a name that equals some table name up to case gets the population
    of the first such row, and the answer is the same under every
    scorer: the fuzzy step plays no part. *)
Theorem C4_exact_match_first lower scorer pop_df cname r :
  In r pop_df -> lower (country r) = lower cname ->
  exists pre r0 post,
    pop_df = pre ++ r0 :: post /\
    lower (country r0) = lower cname /\
    (forall x, In x pre -> lower (country x) <> lower cname) /\
    match_one lower scorer pop_df cname = Ok (Some (population r0)) /\
    forall scorer', match_one lower scorer' pop_df cname
                    = Ok (Some (population r0)).
Proof.
  intros Hr He. unfold match_one.
  destruct (exact_rows lower pop_df cname) as [|r0 rest] eqn:E.
  - exfalso. rewrite exact_rows_nil in E. now apply (E r).
  - destruct (filter_first _ _ _ _ E) as (pre & post & Hsplit & Hpre & H0).
    exists pre, r0, post. repeat split; auto.
    + now apply String.eqb_eq.
    + intros x Hx. apply String.eqb_neq. now apply Hpre.
Qed.

(** C4 on the example table: "France" meets "france" before "France". *)
Lemma C4_exact_match_first_witness :
  exists pre r0 post,
    download_population_data Examples.rows0 = pre ++ r0 :: post /\
    Examples.str_lower (country r0) = Examples.str_lower "France" /\
    (forall x, In x pre ->
       Examples.str_lower (country x) <> Examples.str_lower "France") /\
    match_one Examples.str_lower Examples.toy_scorer
      (download_population_data Examples.rows0) "France"
    = Ok (Some (population r0)) /\
    forall scorer', match_one Examples.str_lower scorer'
      (download_population_data Examples.rows0) "France"
    = Ok (Some (population r0)).
Proof.
  apply (C4_exact_match_first Examples.str_lower Examples.toy_scorer
           (download_population_data Examples.rows0) "France"
           (mkPopRow "France" 2023 (PyInt 1))).
  - simpl. tauto.
  - reflexivity.
Defined.

(** C5: the side count is 4 below 0.8, 6 from 0.8 to below 2, 8 from 2 to
    below 4 and 12 from 4 on; these four bands cover every radius that is
    a number, so the count is one of 4, 6, 8, 12 and never decreases when
    the radius grows. *)
Theorem C5_sides_step_function (r : float) :
  ((r <? 0.8)%float = true -> sides_of r = 4%nat) /\
  ((0.8 <=? r)%float = true /\ (r <? 2)%float = true ->
   sides_of r = 6%nat) /\
  ((2 <=? r)%float = true /\ (r <? 4)%float = true -> sides_of r = 8%nat) /\
  ((4 <=? r)%float = true -> sides_of r = 12%nat) /\
  (is_nan r = false ->
   (r <? 0.8)%float = true \/
   ((0.8 <=? r)%float = true /\ (r <? 2)%float = true) \/
   ((2 <=? r)%float = true /\ (r <? 4)%float = true) \/
   (4 <=? r)%float = true) /\
  In (sides_of r) [4; 6; 8; 12]%nat /\
  forall r', (r <=? r')%float = true -> (sides_of r <= sides_of r')%nat.
Proof.
  split; [|split; [|split; [|split; [|split; [|split]]]]].
  - intros H. unfold sides_of. now rewrite H.
  - intros [H1 H2]. unfold sides_of.
    now rewrite (leb_not_ltb _ _ H1), H2.
  - intros [H1 H2]. unfold sides_of.
    rewrite (ltb_below 0.8 2 r eq_refl H1).
    now rewrite (leb_not_ltb _ _ H1), H2.
  - intros H1. unfold sides_of.
    rewrite (ltb_below 0.8 4 r eq_refl H1).
    rewrite (ltb_below 2 4 r eq_refl H1).
    now rewrite (leb_not_ltb _ _ H1).
  - intros Hn.
    destruct (r <? 0.8)%float eqn:A; [now left|].
    right. apply (ltb_false_leb r 0.8 Hn eq_refl) in A.
    destruct (r <? 2)%float eqn:B; [now left|].
    right. apply (ltb_false_leb r 2 Hn eq_refl) in B.
    destruct (r <? 4)%float eqn:C; [now left|].
    right. apply (ltb_false_leb r 4 Hn eq_refl) in C. exact C.
  - apply sides_of_In.
  - intros r' Hle. unfold sides_of.
    destruct (r' <? 0.8)%float eqn:A'.
    { now rewrite (leb_ltb_trans _ _ _ Hle A'). }
    destruct (r' <? 2)%float eqn:B'.
    { rewrite (leb_ltb_trans _ _ _ Hle B').
      destruct (r <? _)%float; lia. }
    destruct (r' <? 4)%float eqn:C'.
    { rewrite (leb_ltb_trans _ _ _ Hle C').
      destruct (r <? _)%float; [lia|]. destruct (r <? 2)%float; lia. }
    destruct (r <? _)%float; [lia|]. destruct (r <? 2)%float; [lia|].
    destruct (r <? 4)%float; lia.
Qed.

(** C5 at the thresholds. *)
Lemma C5_sides_step_function_witness :
  sides_of 0.79 = 4%nat /\ sides_of 0.8 = 6%nat /\
  sides_of 1.99 = 6%nat /\ sides_of 2 = 8%nat /\
  sides_of 3.99 = 8%nat /\ sides_of 4 = 12%nat /\
  (sides_of 0.79 <= sides_of 4)%nat.
Proof.
  split; [|split; [|split; [|split; [|split; [|split]]]]].
  - apply (C5_sides_step_function 0.79). reflexivity.
  - apply (C5_sides_step_function 0.8). split; reflexivity.
  - apply (C5_sides_step_function 1.99). split; reflexivity.
  - apply (C5_sides_step_function 2). split; reflexivity.
  - apply (C5_sides_step_function 3.99). split; reflexivity.
  - apply (C5_sides_step_function 4). reflexivity.
  - apply (C5_sides_step_function 0.79). reflexivity.
Defined.




(** C7: with a table that has a row (and scores on the library's scale,
    which are never negative) the loop returns a map that holds, for
    every region name and for no other key, the one value [match_one]
    gives that name; and the row lookup of the fuzzy branch always finds
    a row, since [extractOne] answers with a name of the table. *)
Theorem C7_reconciler_total lower scorer pop_df cnames :
  pop_df <> [] -> (forall a b, 0 <= scorer a b) ->
  (exists pop_map,
     match_loop lower scorer pop_df cnames ∅ = Ok pop_map /\
     (forall n, In n cnames ->
        exists v, pop_map !! n = Some v /\
                  match_one lower scorer pop_df n = Ok v) /\
     (forall n, ~ In n cnames -> pop_map !! n = None)) /\
  (forall cname best score,
     extractOne scorer cname (pop_names pop_df) = Some (best, score) ->
     exists q, iloc0 (named_rows pop_df best) = Ok q).
Proof.
  intros Hne Hpos. split.
  - destruct (match_loop_total lower scorer pop_df cnames ∅) as [pm Hpm].
    { intros n _. now apply match_one_total. }
    exists pm. split; [exact Hpm|].
    apply match_loop_lookup in Hpm. destruct Hpm as [Hin Hout]. split.
    + intros n Hn. destruct (Hin n Hn) as (v & Hv & Hl). eauto.
    + intros n Hn. rewrite (Hout n Hn). apply lookup_empty.
  - intros cname best score Hext.
    apply extractOne_spec in Hext. destruct Hext as (Hb & _).
    destruct (named_rows_names pop_df best Hb) as (r & rest & -> & _).
    simpl. eauto.
Qed.

(** C7 on the example table and the names of the example world. *)
Lemma C7_reconciler_total_witness :
  exists pop_map,
    match_loop Examples.str_lower Examples.toy_scorer
      (download_population_data Examples.rows0)
      (map reg_country Examples.world0) ∅ = Ok pop_map /\
    (forall n, In n (map reg_country Examples.world0) ->
       exists v, pop_map !! n = Some v /\
                 match_one Examples.str_lower Examples.toy_scorer
                   (download_population_data Examples.rows0) n = Ok v) /\
    (forall n, ~ In n (map reg_country Examples.world0) ->
               pop_map !! n = None).
Proof.
  refine (proj1 (C7_reconciler_total Examples.str_lower Examples.toy_scorer
                   (download_population_data Examples.rows0)
                   (map reg_country Examples.world0) _ _)).
  - discriminate.
  - intros a b. unfold Examples.toy_scorer.
    destruct (String.eqb _ _); [lia|]. destruct (String.prefix _ _); lia.
Defined.


(** ** More facts about the pipeline *)

Section GeometryFacts.

Variable libm_pow : float -> float -> float.
Variable libm_cos : float -> float.
Variable libm_sin : float -> float.

#[local] Abbreviation polygon := (polygon_of libm_pow libm_cos libm_sin).
#[local] Abbreviation synth := (synthesize libm_pow libm_cos libm_sin).

Lemma synthesize_inv anchor a poly :
  synth anchor a = Ok poly ->
  exists radius,
    radius_of libm_pow a = Ok radius /\
    poly = make_regular_polygon libm_cos libm_sin (fst anchor) (snd anchor)
             radius (sides_of radius) 0.5%float.
Proof.
  unfold synthesize.
  destruct (radius_of libm_pow a) as [radius|e]; [|discriminate].
  intros [= <-]. eauto.
Qed.

Lemma radius_of_ge a radius :
  radius_of libm_pow a = Ok radius -> (0.5 <=? radius)%float = true.
Proof.
  unfold radius_of.
  destruct (float_pow_half libm_pow a) as [root|e]; [|discriminate].
  intros [= <-]. apply max_half_ge.
Qed.

Lemma polygon_of_anchor_area row :
  polygon row = match anchor_area row with
                | Some (anchor, a) => synth anchor a
                | None => Raise TypeError
                end.
Proof. unfold polygon_of, anchor_area. now destruct (geometry row). Qed.

(** The polygons depend on the anchors and the areas only. *)
Lemma mapM_polygon_of_ext l : forall l',
  map anchor_area l = map anchor_area l' ->
  mapM polygon l = mapM polygon l'.
Proof.
  induction l as [|x t IH]; intros [|x' t']; cbn [map]; try discriminate;
    [reflexivity|].
  intros [= Hx Ht]. rewrite !mapM_cons.
  rewrite (polygon_of_anchor_area x), (polygon_of_anchor_area x'), Hx.
  now rewrite (IH t' Ht).
Qed.

End GeometryFacts.

(** * The claims about the pipeline *)

(** C8: a run is a function of its inputs, so a second run on the same
    inputs gives the same output; every plotted polygon is the
    synthesizer's answer for the anchor and the area of its region: [n]
    vertices around the anchor at the radius line 98 computes from the
    area, which is at least 0.5, with [n] the side count of that radius
    and the [i]-th vertex at angle [0.5 + 2 pi i / n]; and two runs whose
    kept regions have the same anchors and areas plot the same polygons,
    whatever the names, the population table and the scorer. *)
Theorem C8_deterministic_geometry lower scorer libm_pow libm_cos libm_sin
    world rows out :
  main lower scorer libm_pow libm_cos libm_sin world rows = Ok out ->
  (forall world' rows', world' = world -> rows' = rows ->
     main lower scorer libm_pow libm_cos libm_sin world' rows' = Ok out) /\
  Forall2
    (fun row poly =>
       exists cx cy a radius,
         anchor_area row = Some (cx, cy, a) /\
         radius_of libm_pow a = Ok radius /\
         (0.5 <=? radius)%float = true /\
         synthesize libm_pow libm_cos libm_sin (cx, cy) a = Ok poly /\
         let n := sides_of radius in
         length poly = n /\
         forall i, (i < n)%nat ->
           nth i poly (0, 0)%float =
           ((cx + radius
                  * libm_cos (0.5 + 2 * pi * Z2float (Z.of_nat i)
                                    / Z2float (Z.of_nat n)))%float,
            (cy + radius
                  * libm_sin (0.5 + 2 * pi * Z2float (Z.of_nat i)
                                    / Z2float (Z.of_nat n)))%float))
    (kept world) (polygons out) /\
  (forall lower' scorer' world' rows' out',
     main lower' scorer' libm_pow libm_cos libm_sin world' rows' = Ok out' ->
     map anchor_area (kept world') = map anchor_area (kept world) ->
     polygons out' = polygons out).
Proof.
  intros Hmain. split; [intros ? ? -> ->; exact Hmain|].
  apply main_Ok_iff in Hmain. destruct Hmain as (_ & _ & ps & Hps & ->).
  cbn [polygons]. split.
  - apply mapM_Ok_Forall2 in Hps.
    eapply Forall2_impl; [exact Hps|].
    intros row poly H. cbv beta in H.
    rewrite polygon_of_anchor_area in H.
    destruct (anchor_area row) as [[[cx cy] a]|]; [|discriminate].
    destruct (synthesize_inv _ _ _ _ _ _ H) as (radius & Hrad & Hpoly).
    cbn [fst snd] in Hpoly.
    exists cx, cy, a, radius. split; [reflexivity|]. split; [exact Hrad|].
    split; [exact (radius_of_ge _ _ _ Hrad)|]. split; [exact H|].
    cbv zeta. split.
    + rewrite Hpoly. apply make_regular_polygon_length.
    + intros i Hi. rewrite Hpoly. now apply make_regular_polygon_nth.
  - intros lower' scorer' world' rows' out' Hmain' Hobs.
    apply main_Ok_iff in Hmain'.
    destruct Hmain' as (_ & _ & ps' & Hps' & ->).
    cbn [polygons].
    rewrite (mapM_polygon_of_ext _ _ _ _ _ Hobs), Hps in Hps'.
    now injection Hps' as <-.
Qed.

(** C8 on the example world: the run on another table, with another
    notion of case, plots the same polygons. *)
Lemma C8_deterministic_geometry_witness :
  exists out out',
    main Examples.str_lower Examples.toy_scorer Examples.sqrt_pow
      Examples.poly_cos Examples.poly_sin Examples.world0 Examples.rows0
    = Ok out /\
    main (fun s => s) Examples.toy_scorer Examples.sqrt_pow
      Examples.poly_cos Examples.poly_sin Examples.world0 Examples.rows1
    = Ok out' /\
    polygons out' = polygons out /\
    length (polygons out) = 5%nat.
Proof.
  destruct run0 as [ps Hrun].
  destruct (main_total (fun s => s) Examples.toy_scorer Examples.sqrt_pow
              Examples.poly_cos Examples.poly_sin Examples.world0
              Examples.rows1 ltac:(discriminate) toy_scorer_nonneg
              world0_areas) as [out' Hrun'].
  { simpl. intros p [<-|[]]. eexists. vm_compute. reflexivity. }
  exists (mkOutput ps POP_YEAR Examples.records0), out'.
  split; [exact Hrun|]. split; [exact Hrun'|].
  pose proof (C8_deterministic_geometry _ _ _ _ _ _ _ _ Hrun)
    as (_ & Hgeo & Hind).
  split.
  - exact (Hind _ _ _ _ _ Hrun' eq_refl).
  - symmetry. exact (Forall2_length _ _ _ Hgeo).
Defined.

(** C9: a row whose geometry is missing or empty is not among the kept
    rows; a run that succeeds with it gives the same output, polygons and
    records, as the run without it, and a run that succeeds without it
    succeeds with it as soon as its name is reconciled. *)
Theorem C9_skipped_regions lower scorer libm_pow libm_cos libm_sin
    w1 row w2 rows :
  (geometry row = None \/
   exists geom, geometry row = Some geom /\ is_empty geom = true) ->
  kept (w1 ++ row :: w2) = kept (w1 ++ w2) /\
  (forall out,
     main lower scorer libm_pow libm_cos libm_sin (w1 ++ row :: w2) rows
     = Ok out ->
     main lower scorer libm_pow libm_cos libm_sin (w1 ++ w2) rows = Ok out /\
     length (polygons out) = length (kept (w1 ++ w2)) /\
     length (countries out) = length (kept (w1 ++ w2))) /\
  (forall out,
     main lower scorer libm_pow libm_cos libm_sin (w1 ++ w2) rows = Ok out ->
     (exists v, match_one lower scorer (download_population_data rows)
                  (reg_country row) = Ok v) ->
     main lower scorer libm_pow libm_cos libm_sin (w1 ++ row :: w2) rows
     = Ok out).
Proof.
  intros Hskip. apply has_boundary_false in Hskip.
  assert (Hkept : kept (w1 ++ row :: w2) = kept (w1 ++ w2)).
  { rewrite !kept_app. now rewrite kept_skip. }
  split; [exact Hkept|]. split.
  - intros out Hmain. apply main_Ok_iff in Hmain.
    destruct Hmain as (Hall & Hmil & ps & Hps & ->). rewrite Hkept in *.
    split; [|split].
    + apply main_Ok_iff. split; [|split; [exact Hmil | eauto]].
      intros r Hr. apply Hall. rewrite in_app_iff in *. simpl. tauto.
    + cbn [polygons]. apply mapM_Ok_Forall2 in Hps.
      symmetry. exact (Forall2_length _ _ _ Hps).
    + cbn [countries]. apply length_map.
  - intros out Hmain Hrow. apply main_Ok_iff in Hmain.
    destruct Hmain as (Hall & Hmil & ps & Hps & ->).
    apply main_Ok_iff. rewrite Hkept. split; [|split; [exact Hmil | eauto]].
    intros r Hr. rewrite in_app_iff in Hr. simpl in Hr.
    destruct Hr as [Hr|[<-|Hr]]; [|exact Hrow|];
      apply Hall; rewrite in_app_iff; tauto.
Qed.

(** C9 on the example world, whose second row has no geometry. *)
Lemma C9_skipped_regions_witness :
  exists out,
    main Examples.str_lower Examples.toy_scorer Examples.sqrt_pow
      Examples.poly_cos Examples.poly_sin Examples.world0 Examples.rows0
    = Ok out /\
    main Examples.str_lower Examples.toy_scorer Examples.sqrt_pow
      Examples.poly_cos Examples.poly_sin
      ([mkRegion "Russia" (Some (Examples.square 49)) "RUS"]
         ++ List.tl (List.tl Examples.world0)) Examples.rows0
    = Ok out /\
    length (countries out) = 5%nat.
Proof.
  destruct run0 as [ps Hrun].
  exists (mkOutput ps POP_YEAR Examples.records0).
  split; [exact Hrun|].
  pose proof (proj1 (proj2 (C9_skipped_regions Examples.str_lower
    Examples.toy_scorer Examples.sqrt_pow Examples.poly_cos Examples.poly_sin
    [mkRegion "Russia" (Some (Examples.square 49)) "RUS"]
    (mkRegion "Ghost" None "GHO") (List.tl (List.tl Examples.world0))
    Examples.rows0 (or_introl eq_refl))) _ Hrun) as (H & _ & _).
  split; [exact H | reflexivity].
Defined.

(** C10: the saved list has one record for every kept row, in the order
    of the boundary rows; a record carries the name and the code of its
    row and the value the reconciler returns for that name, so records of
    equal names carry equal populations. *)
Theorem C10_output_records lower scorer libm_pow libm_cos libm_sin
    world rows out :
  main lower scorer libm_pow libm_cos libm_sin world rows = Ok out ->
  countries out =
    map (expected_record lower scorer (download_population_data rows))
        (kept world) /\
  map out_country (countries out) = map reg_country (kept world) /\
  map out_iso3 (countries out) = map iso3 (kept world) /\
  Forall2 (fun row rec =>
             match_one lower scorer (download_population_data rows)
               (reg_country row) = Ok (population_raw rec))
          (kept world) (countries out) /\
  (forall rec1 rec2, In rec1 (countries out) -> In rec2 (countries out) ->
     out_country rec1 = out_country rec2 ->
     population_raw rec1 = population_raw rec2 /\
     population_millions rec1 = population_millions rec2).
Proof.
  intros Hmain. apply main_Ok_iff in Hmain.
  destruct Hmain as (Hall & _ & ps & _ & ->). cbn [countries].
  split; [reflexivity|]. rewrite !map_map.
  cbn [out_country out_iso3 expected_record].
  split; [reflexivity|]. split; [reflexivity|]. split.
  - assert (Hk : forall row, In row (kept world) -> In row world)
      by (intros row Hr; now apply kept_In in Hr).
    induction (kept world) as [|row t IH]; cbn [map]; constructor.
    + destruct (Hall row (Hk row (or_introl eq_refl))) as [v Hv].
      unfold expected_record. cbn [population_raw]. now rewrite Hv.
    + apply IH. intros r Hr. apply Hk. now right.
  - intros rec1 rec2 H1 H2 Hname.
    apply in_map_iff in H1, H2.
    destruct H1 as (r1 & <- & _), H2 as (r2 & <- & _).
    unfold expected_record in *. cbn [out_country population_raw
      population_millions] in *. now rewrite Hname.
Qed.

(** C10 on the example run. *)
Lemma C10_output_records_witness :
  exists out,
    main Examples.str_lower Examples.toy_scorer Examples.sqrt_pow
      Examples.poly_cos Examples.poly_sin Examples.world0 Examples.rows0
    = Ok out /\
    countries out = Examples.records0 /\
    map out_country (countries out)
    = ["Russia"; "France"; "Atlantis"; "Mars"; "NAURU"] /\
    map out_iso3 (countries out) = ["RUS"; "FRA"; "ATL"; "MRS"; "NRU"].
Proof.
  destruct run0 as [ps Hrun].
  exists (mkOutput ps POP_YEAR Examples.records0).
  split; [exact Hrun|]. split; [reflexivity|].
  pose proof (C10_output_records _ _ _ _ _ _ _ _ Hrun) as (_ & Hn & Hi & _).
  split; [rewrite Hn | rewrite Hi]; reflexivity.
Defined.

(** * Further properties of the loader *)

Lemma first_column_Ok l c : first_column l = Ok c -> exists t, l = c :: t.
Proof. destruct l as [|x t]; simpl; [discriminate | intros [= ->]; eauto]. Qed.

Lemma existsb_eqb_In (x : string) l :
  existsb (String.eqb x) l = true <-> In x l.
Proof.
  rewrite existsb_exists. split.
  - intros (y & Hy & E). apply String.eqb_eq in E. now subst.
  - intros H. exists x. split; [exact H | apply String.eqb_refl].
Qed.

(** X1: the columns the loader chooses are columns of the table; the
    name column is "Country Name" or else the first column, the year
    column is "Year" or else the first one whose lower-cased name
    contains "year", and the value column is the first one called
    "value" or "population" up to case. *)
Theorem X1_select_columns_sound lower columns name_col year_col val_col :
  select_columns lower columns = Ok (name_col, year_col, val_col) ->
  (In name_col columns /\
   (name_col = "Country Name" \/
    ~ In "Country Name" columns /\ exists t, columns = name_col :: t)) /\
  (In year_col columns /\
   (year_col = "Year" \/
    ~ In "Year" columns /\
    exists pre post,
      columns = pre ++ year_col :: post /\
      str_contains "year" (lower year_col) = true /\
      forall c, In c pre -> str_contains "year" (lower c) = false)) /\
  (exists pre post,
     columns = pre ++ val_col :: post /\
     is_value_name lower val_col = true /\
     forall c, In c pre -> is_value_name lower c = false).
Proof.
  unfold select_columns. intros H.
  apply bind_Ok in H. destruct H as (n & Hn & H).
  apply bind_Ok in H. destruct H as (y & Hy & H).
  apply bind_Ok in H. destruct H as (v & Hv & H).
  injection H as <- <- <-. split; [|split].
  - unfold choose_name_col in Hn.
    destruct (existsb (String.eqb "Country Name") columns) eqn:E.
    + injection Hn as <-. apply existsb_eqb_In in E. auto.
    + apply first_column_Ok in Hn. destruct Hn as [t ->].
      split; [now left|]. right. split; [|eauto].
      intros Hin. apply existsb_eqb_In in Hin. congruence.
  - unfold choose_year_col in Hy.
    destruct (existsb (String.eqb "Year") columns) eqn:E.
    + injection Hy as <-. apply existsb_eqb_In in E. auto.
    + apply first_column_Ok in Hy. destruct Hy as [t Ht].
      pose proof (filter_head_In _ _ _ _ Ht) as [Hin _].
      split; [exact Hin|]. right. split.
      * intros Hin'. apply existsb_eqb_In in Hin'. congruence.
      * destruct (filter_first _ _ _ _ Ht) as (pre & post & Hs & Hpre & Hc).
        exists pre, post. auto.
  - unfold choose_val_col in Hv.
    apply first_column_Ok in Hv. destruct Hv as [t Ht].
    destruct (filter_first _ _ _ _ Ht) as (pre & post & -> & Hpre & Hvn).
    exists pre, post. auto.
Qed.

(** X1 on a header with two columns that mention a year. *)
Lemma X1_select_columns_sound_witness :
  exists pre post,
    ["Country Name"; "Fiscal Year"; "Year End"; "Value"]
    = pre ++ "Fiscal Year" :: post /\
    str_contains "year" (Examples.str_lower "Fiscal Year") = true /\
    forall c, In c pre -> str_contains "year" (Examples.str_lower c) = false.
Proof.
  pose proof (X1_select_columns_sound Examples.str_lower
                ["Country Name"; "Fiscal Year"; "Year End"; "Value"]
                "Country Name" "Fiscal Year" "Value" eq_refl)
    as (_ & (_ & [H|[_ H]]) & _).
  - discriminate H.
  - exact H.
Defined.

(** X2: choosing the columns raises only [IndexError], and it does so
    exactly when no column can serve as the year column or none as the
    value column (a table with no column at all is such a table). *)
Theorem X2_select_columns_raises lower columns e :
  select_columns lower columns = Raise e <->
  e = IndexError /\
  ((~ In "Year" columns /\
    forall c, In c columns -> str_contains "year" (lower c) = false) \/
   (forall c, In c columns -> is_value_name lower c = false)).
Proof.
  unfold select_columns, choose_name_col, choose_year_col, choose_val_col.
  destruct columns as [|c0 t].
  - simpl. split; [intros [= <-] | intros [-> _]; reflexivity].
    split; [reflexivity|]. right. intros c [].
  - assert (Hn : exists n,
      (if existsb (String.eqb "Country Name") (c0 :: t)
       then Ok "Country Name" else first_column (c0 :: t)) = Ok n)
      by (destruct (existsb _ _); simpl; eauto).
    destruct Hn as [n ->]. cbn [mbind result_bind].
    destruct (existsb (String.eqb "Year") (c0 :: t)) eqn:EY.
    + cbn [mbind result_bind]. apply existsb_eqb_In in EY.
      destruct (List.filter (is_value_name lower) (c0 :: t)) as [|v vs] eqn:F.
      * simpl. rewrite filter_nil_iff in F.
        split; [intros [= <-]; auto | intros [-> _]; reflexivity].
      * simpl. split; [discriminate|]. intros [_ [[H _]|H]]; [tauto|].
        apply filter_head_In in F. destruct F as [Hin Hv].
        rewrite (H v Hin) in Hv. discriminate.
    + assert (HY : ~ In "Year" (c0 :: t))
        by (intros Hin; apply existsb_eqb_In in Hin; congruence).
      destruct (List.filter (fun c => str_contains "year" (lower c)) (c0 :: t))
        as [|y ys] eqn:FY.
      * simpl. rewrite filter_nil_iff in FY.
        split; [intros [= <-]; auto | intros [-> _]; reflexivity].
      * cbn [first_column mbind result_bind].
        apply filter_head_In in FY. destruct FY as [Hyin Hy].
        destruct (List.filter (is_value_name lower) (c0 :: t))
          as [|v vs] eqn:F.
        -- simpl. rewrite filter_nil_iff in F.
           split; [intros [= <-]; auto | intros [-> _]; reflexivity].
        -- simpl. split; [discriminate|].
           apply filter_head_In in F. destruct F as [Hin Hv].
           intros [_ [[_ H]|H]].
           ++ rewrite (H y Hyin) in Hy. discriminate.
           ++ rewrite (H v Hin) in Hv. discriminate.
Qed.

(** X2 on a header with no value column. *)
Lemma X2_select_columns_raises_witness :
  select_columns Examples.str_lower ["Country Name"; "Year"; "Count"]
  = Raise IndexError.
Proof.
  apply X2_select_columns_raises. split; [reflexivity|]. right.
  intros c Hc. simpl in Hc. destruct Hc as [<-|[<-|[<-|[]]]]; reflexivity.
Defined.

Lemma rename_lookup name_col val_col c :
  default c ((<[val_col := "population"]>
                (<[name_col := "country"]> (∅ : gmap string string))) !! c)
  = if String.eqb c val_col then "population"
    else if String.eqb c name_col then "country" else c.
Proof.
  destruct (String.eqb_spec c val_col) as [->|Hv].
  - now rewrite lookup_insert_eq.
  - rewrite lookup_insert_ne by congruence.
    destruct (String.eqb_spec c name_col) as [->|Hn].
    + now rewrite lookup_insert_eq.
    + rewrite lookup_insert_ne by congruence. now rewrite lookup_empty.
Qed.

(** X3: renaming keeps the number of columns and leaves the columns that
    were not chosen alone; the value column always becomes "population";
    the name column becomes "country" when it is another column than the
    value column, but when one column was chosen as both (a table whose
    first column is the value column and that has no "Country Name") no
    column is renamed to "country". *)
Theorem X3_rename_columns name_col val_col columns :
  In name_col columns -> In val_col columns ->
  length (rename_columns name_col val_col columns) = length columns /\
  In "population" (rename_columns name_col val_col columns) /\
  (name_col <> val_col ->
     In "country" (rename_columns name_col val_col columns)) /\
  (name_col = val_col -> ~ In "country" columns ->
     ~ In "country" (rename_columns name_col val_col columns)) /\
  (forall c, In c columns -> c <> name_col -> c <> val_col ->
     In c (rename_columns name_col val_col columns)).
Proof.
  intros Hn Hv. unfold rename_columns. cbv zeta.
  split; [apply length_map|]. split; [|split; [|split]].
  - apply in_map_iff. exists val_col. split; [|exact Hv].
    rewrite rename_lookup. now rewrite String.eqb_refl.
  - intros Hne. apply in_map_iff. exists name_col. split; [|exact Hn].
    rewrite rename_lookup.
    destruct (String.eqb_spec name_col val_col); [contradiction|].
    now rewrite String.eqb_refl.
  - intros -> Hno Hin. apply in_map_iff in Hin.
    destruct Hin as (c & Hc & Hin). rewrite rename_lookup in Hc.
    destruct (String.eqb_spec c val_col); [discriminate|]. congruence.
  - intros c Hc Hcn Hcv. apply in_map_iff. exists c. split; [|exact Hc].
    rewrite rename_lookup.
    destruct (String.eqb_spec c val_col); [contradiction|].
    destruct (String.eqb_spec c name_col); [contradiction|]. reflexivity.
Qed.

(** X3 on a header whose first column is the value column. *)
Lemma X3_rename_columns_witness :
  rename_columns "Population" "Population" ["Population"; "Year"]
  = ["population"; "Year"] /\
  ~ In "country" (rename_columns "Population" "Population"
                    ["Population"; "Year"]).
Proof.
  split; [reflexivity|].
  refine (proj1 (proj2 (proj2 (proj2
    (X3_rename_columns "Population" "Population" ["Population"; "Year"]
       _ _)))) eq_refl _).
  - now left.
  - now left.
  - simpl. intros [H|[H|[]]]; discriminate.
Defined.

Lemma as_raw_dropna_In l p : In p (dropna l) <-> In (as_raw p) l.
Proof.
  rewrite dropna_In. split.
  - intros (r & Hr & Hp & Hc & Hy).
    destruct r as [c y q]. simpl in *. subst. exact Hr.
  - intros H. exists (as_raw p). simpl. auto.
Qed.

Lemma dropna_filter_numeric (f : RawRow -> bool) l :
  dropna (List.filter f (List.filter numeric l)) = dropna (List.filter f l).
Proof.
  induction l as [|r t IH]; simpl; [reflexivity|].
  unfold numeric at 1. destruct (raw_population r) as [q|] eqn:Q; simpl.
  - destruct (f r); simpl; [rewrite Q|]; now rewrite IH.
  - destruct (f r); simpl; [rewrite Q|]; exact IH.
Qed.

Lemma map_as_raw_dropna l : map as_raw (dropna l) = List.filter numeric l.
Proof.
  induction l as [|r t IH]; simpl; [reflexivity|].
  unfold numeric at 1. destruct r as [c y [q|]]; simpl; now rewrite IH.
Qed.

Lemma dropna_numeric_id l : dropna (List.filter numeric l) = dropna l.
Proof.
  induction l as [|r t IH]; simpl; [reflexivity|].
  unfold numeric at 1. destruct (raw_population r) as [q|] eqn:Q; simpl;
    [rewrite Q|]; now rewrite IH.
Qed.

Lemma has_year_false y l :
  has_year y l = false <-> forall r, In r l -> raw_year r <> y.
Proof.
  unfold has_year. split.
  - intros H r Hr E.
    assert (X : existsb (fun r0 => raw_year r0 =? y) l = true)
      by (apply existsb_exists; exists r; split; [exact Hr | now apply Z.eqb_eq]).
    congruence.
  - intros H. destruct (existsb _ l) eqn:E; [|reflexivity].
    apply existsb_exists in E. destruct E as (r & Hr & E).
    apply Z.eqb_eq in E. now apply H in E.
Qed.

Lemma has_year_true y l :
  has_year y l = true <-> exists r, In r l /\ raw_year r = y.
Proof.
  unfold has_year. rewrite existsb_exists.
  split; intros (r & Hr & E); exists r; split; auto; now apply Z.eqb_eq.
Qed.

(** Sorting leaves a sorted frame as it is. *)
Lemma sort_values_id l : StronglySorted key_le l -> sort_values l = l.
Proof.
  induction 1 as [|x t Hs IH Hx]; simpl; [reflexivity|].
  rewrite IH. destruct t as [|y t']; [reflexivity|]. simpl.
  apply Forall_inv in Hx. unfold key_le in Hx. now rewrite Hx.
Qed.

Lemma groupby_tail1_id l :
  List.NoDup (map raw_country l) -> groupby_tail1 l = l.
Proof.
  induction l as [|x t IH]; simpl; [reflexivity|].
  intros Hn. apply List.NoDup_cons_iff in Hn. destruct Hn as [Hx Hn].
  destruct (existsb (same_name x) t) eqn:E.
  - exfalso. apply existsb_same_name in E. destruct E as (y & Hy & Ey).
    apply Hx. apply in_map_iff. eauto.
  - now rewrite IH.
Qed.

Lemma groupby_tail1_sorted l :
  StronglySorted key_le l -> StronglySorted key_le (groupby_tail1 l).
Proof.
  induction 1 as [|x t Hs IH Hx]; simpl; [constructor|].
  destruct (existsb (same_name x) t); [exact IH|].
  constructor; [exact IH|].
  rewrite List.Forall_forall in *. intros y Hy.
  apply Hx. now apply groupby_tail1_incl.
Qed.

Lemma filter_sorted (f : RawRow -> bool) l :
  StronglySorted key_le l -> StronglySorted key_le (List.filter f l).
Proof.
  induction 1 as [|x t Hs IH Hx]; simpl; [constructor|].
  destruct (f x); [|exact IH].
  constructor; [exact IH|].
  rewrite List.Forall_forall in *. intros y Hy.
  apply filter_In in Hy. now apply Hx.
Qed.

Lemma filter_names_NoDup (f : RawRow -> bool) l :
  List.NoDup (map raw_country l) ->
  List.NoDup (map raw_country (List.filter f l)).
Proof.
  induction l as [|x t IH]; simpl; [constructor|].
  intros Hn. apply List.NoDup_cons_iff in Hn. destruct Hn as [Hx Hn].
  destruct (f x); simpl; [|now apply IH].
  constructor; [|now apply IH].
  intros Hin. apply Hx. apply in_map_iff in Hin.
  destruct Hin as (y & Ey & Hy). apply filter_In in Hy.
  apply in_map_iff. exists y. tauto.
Qed.

Lemma select_year_incl l r : In r (select_year l) -> In r l.
Proof.
  unfold select_year. destruct (has_year POP_YEAR l).
  - intros H. now apply filter_In in H.
  - intros H. apply groupby_tail1_incl in H.
    eapply Permutation_in; [apply sort_values_perm | exact H].
Qed.

Lemma groupby_tail1_length l : (length (groupby_tail1 l) <= length l)%nat.
Proof.
  induction l as [|x t IH]; simpl; [lia|].
  destruct (existsb (same_name x) t); simpl; lia.
Qed.

Lemma dropna_length l : (length (dropna l) <= length l)%nat.
Proof.
  induction l as [|x t IH]; simpl; [lia|].
  destruct (raw_population x); simpl; lia.
Qed.

Lemma filter_idem {A : Type} (f : A -> bool) l :
  List.filter f (List.filter f l) = List.filter f l.
Proof.
  induction l as [|x t IH]; simpl; [reflexivity|].
  destruct (f x) eqn:E; simpl; [rewrite E|]; now rewrite IH.
Qed.

(** X4: the loader is idempotent: reading its own table back as a
    downloaded table gives the same table. *)
Theorem X4_loader_idempotent rows :
  download_population_data (map as_raw (download_population_data rows))
  = download_population_data rows.
Proof.
  unfold download_population_data at 2 3.
  rewrite map_as_raw_dropna.
  unfold download_population_data, select_year at 1.
  destruct (has_year POP_YEAR rows) eqn:Hy.
  - assert (Hsel : select_year rows
                   = List.filter (fun r => raw_year r =? POP_YEAR) rows)
      by (unfold select_year; now rewrite Hy).
    rewrite Hsel.
    destruct (has_year POP_YEAR
                (List.filter numeric
                   (List.filter (fun r => raw_year r =? POP_YEAR) rows)))
      eqn:Hy'.
    + rewrite dropna_filter_numeric. now rewrite filter_idem.
    + assert (E : List.filter numeric
                    (List.filter (fun r => raw_year r =? POP_YEAR) rows) = []).
      { destruct (List.filter numeric _) as [|r t] eqn:F; [reflexivity|].
        exfalso. rewrite has_year_false in Hy'.
        apply (Hy' r (or_introl eq_refl)).
        apply filter_head_In in F. destruct F as [Hin _].
        apply filter_In in Hin. now apply Z.eqb_eq. }
      rewrite E. simpl. rewrite <- dropna_numeric_id, E. reflexivity.
  - assert (Hsel : select_year rows = groupby_tail1 (sort_values rows))
      by (unfold select_year; now rewrite Hy).
    rewrite Hsel.
    assert (Hy' : has_year POP_YEAR
                    (List.filter numeric (groupby_tail1 (sort_values rows)))
                  = false).
    { rewrite has_year_false in *. intros r Hr. apply Hy.
      apply filter_In in Hr. destruct Hr as [Hr _].
      apply groupby_tail1_incl in Hr.
      eapply Permutation_in; [apply sort_values_perm | exact Hr]. }
    rewrite Hy'.
    rewrite sort_values_id
      by (apply filter_sorted, groupby_tail1_sorted, sort_values_sorted).
    rewrite groupby_tail1_id
      by (apply filter_names_NoDup, groupby_tail1_NoDup).
    apply dropna_numeric_id.
Qed.

(** X5: the loader invents nothing: every row of its table is a row of
    the download whose population parsed, with the same name, year and
    value; so the table has at most as many rows as the download. *)
Theorem X5_loader_rows_from_download rows :
  (forall p, In p (download_population_data rows) -> In (as_raw p) rows) /\
  (length (download_population_data rows) <= length rows)%nat.
Proof.
  unfold download_population_data. split.
  - intros p Hp. apply as_raw_dropna_In in Hp.
    now apply select_year_incl.
  - etransitivity; [apply dropna_length|].
    unfold select_year. destruct (has_year POP_YEAR rows).
    + apply filter_length_le.
    + etransitivity; [apply groupby_tail1_length|].
      now rewrite (Permutation_length (sort_values_perm rows)).
Qed.

(** X5 on the example table. *)
Lemma X5_loader_rows_from_download_witness :
  In (mkRawRow "france" 2023 (Some (PyInt 68000000))) Examples.rows0.
Proof.
  apply (proj1 (X5_loader_rows_from_download Examples.rows0)
           (mkPopRow "france" 2023 (PyInt 68000000))).
  simpl. tauto.
Defined.

Lemma key_le_names_lt a b :
  key_le a b -> raw_country a <> raw_country b ->
  String_as_OT.lt (raw_country a) (raw_country b).
Proof.
  unfold key_le, key_leb.
  destruct (String_as_OT.compare_spec (raw_country a) (raw_country b))
    as [E|L|G]; [contradiction | auto | discriminate].
Qed.

Lemma sorted_names_strict l :
  StronglySorted key_le l -> List.NoDup (map raw_country l) ->
  StronglySorted
    (fun a b => String_as_OT.lt (raw_country a) (raw_country b)) l.
Proof.
  induction 1 as [|x t Hs IH Hx]; simpl; intros Hn; [constructor|].
  apply List.NoDup_cons_iff in Hn. destruct Hn as [Hnx Hn].
  constructor; [now apply IH|].
  rewrite List.Forall_forall in *. intros y Hy.
  apply key_le_names_lt; [now apply Hx|].
  intros E. apply Hnx. apply in_map_iff. exists y. split; [now symmetry | exact Hy].
Qed.

Lemma dropna_sorted l :
  StronglySorted
    (fun a b => String_as_OT.lt (raw_country a) (raw_country b)) l ->
  StronglySorted
    (fun a b => String_as_OT.lt (country a) (country b)) (dropna l).
Proof.
  induction 1 as [|x t Hs IH Hx]; simpl; [constructor|].
  destruct (raw_population x) as [q|]; [|exact IH].
  constructor; [exact IH|].
  rewrite List.Forall_forall in *. intros p Hp.
  apply as_raw_dropna_In in Hp.
  exact (Hx _ Hp).
Qed.

(** X6: when no row carries the target year, the table comes out in
    strictly increasing order of name. *)
Theorem X6_fallback_sorted_by_name rows :
  has_year POP_YEAR rows = false ->
  StronglySorted (fun a b => String_as_OT.lt (country a) (country b))
                 (download_population_data rows).
Proof.
  intros Hy. unfold download_population_data, select_year. rewrite Hy.
  apply dropna_sorted, sorted_names_strict.
  - apply groupby_tail1_sorted, sort_values_sorted.
  - apply groupby_tail1_NoDup.
Qed.

(** X6 on a table with no row of 2023, given with B before A. *)
Lemma X6_fallback_sorted_by_name_witness :
  StronglySorted (fun a b => String_as_OT.lt (country a) (country b))
                 (download_population_data
                    [mkRawRow "B" 2021 (Some (PyInt 7));
                     mkRawRow "A" 2022 (Some (PyInt 5));
                     mkRawRow "B" 2019 (Some (PyInt 3))]).
Proof.
  apply X6_fallback_sorted_by_name. reflexivity.
Defined.

(** X7: when the download has rows of the target year and none of them
    parses, the table is empty, whatever the rows of other years hold. *)
Theorem X7_unparseable_target_year rows r0 :
  In r0 rows -> raw_year r0 = POP_YEAR ->
  (forall r, In r rows -> raw_year r = POP_YEAR -> raw_population r = None) ->
  download_population_data rows = [].
Proof.
  intros H0 Hy0 Hnone.
  assert (Hy : has_year POP_YEAR rows = true)
    by (apply has_year_true; eauto).
  unfold download_population_data, select_year. rewrite Hy.
  destruct (dropna _) as [|p t] eqn:E; [reflexivity|].
  exfalso. assert (Hp : In p (p :: t)) by now left.
  rewrite <- E in Hp. apply as_raw_dropna_In in Hp.
  apply filter_In in Hp. destruct Hp as [Hin Hyr].
  apply Z.eqb_eq in Hyr. specialize (Hnone _ Hin Hyr). discriminate.
Qed.

(** X7 on the table whose only row of 2023 does not parse. *)
Lemma X7_unparseable_target_year_witness :
  download_population_data Examples.rows2 = [].
Proof.
  apply (X7_unparseable_target_year Examples.rows2 (mkRawRow "A" 2023 None)).
  - now left.
  - reflexivity.
  - intros r Hin Hy. simpl in Hin.
    destruct Hin as [<-|[<-|[<-|[]]]]; [reflexivity | discriminate | discriminate].
Defined.

(** X8: as soon as one row of the target year parses, dropping the
    unparseable rows before or after the choice of the year gives the
    same table. *)
Theorem X8_loader_orders_agree rows r0 :
  In r0 rows -> raw_year r0 = POP_YEAR -> raw_population r0 <> None ->
  download_population_data rows = spec_loader rows.
Proof.
  intros H0 Hy0 Hp0.
  assert (Hy : has_year POP_YEAR rows = true)
    by (apply has_year_true; eauto).
  assert (Hy' : has_year POP_YEAR (List.filter numeric rows) = true).
  { apply has_year_true. exists r0. split; [|exact Hy0].
    apply filter_In. split; [exact H0|].
    unfold numeric. destruct (raw_population r0); [reflexivity | contradiction]. }
  unfold download_population_data, spec_loader, select_year.
  rewrite Hy, Hy'. symmetry. apply dropna_filter_numeric.
Qed.

(** X8 on the example table, whose first row is of 2023 and parses. *)
Lemma X8_loader_orders_agree_witness :
  download_population_data Examples.rows0 = spec_loader Examples.rows0.
Proof.
  apply (X8_loader_orders_agree Examples.rows0
           (mkRawRow "Russian Federation" 2023 (Some (PyInt 144000001)))).
  - now left.
  - reflexivity.
  - discriminate.
Defined.

(** * Further properties of the reconciler *)

(** X9: reconciling one name raises only [TypeError], never the
    [IndexError] of [iloc[0]], and it raises exactly when no table name
    equals the name up to case and every table name scores below the
    cutoff 0; with an empty table that is every name. *)
Theorem X9_match_one_raises lower scorer pop_df cname e :
  match_one lower scorer pop_df cname = Raise e <->
  e = TypeError /\
  (forall r, In r pop_df -> lower (country r) <> lower cname) /\
  (forall r, In r pop_df -> scorer cname (country r) < 0).
Proof.
  split.
  - intros H. apply match_one_Raise in H. destruct H as (-> & Hx & He).
    split; [reflexivity|]. split; [now apply exact_rows_nil|].
    intros r Hr. rewrite extractOne_None_iff in He. apply He.
    apply pop_names_In. eauto.
  - intros (-> & Hx & Hs). unfold match_one.
    apply exact_rows_nil in Hx. rewrite Hx.
    assert (He : extractOne scorer cname (pop_names pop_df) = None).
    { apply extractOne_None_iff. intros c Hc.
      apply pop_names_In in Hc. destruct Hc as (r & Hr & <-). now apply Hs. }
    now rewrite He.
Qed.

(** X9 on the empty table. *)
Lemma X9_match_one_raises_witness :
  match_one Examples.str_lower Examples.toy_scorer [] "France"
  = Raise TypeError.
Proof.
  apply X9_match_one_raises.
  split; [reflexivity|]. split; intros r [].
Defined.

(** X10: the map the loop builds depends on which names occur among the
    boundary rows, not on their order or on how often they occur. *)
Theorem X10_pop_map_set_of_names lower scorer pop_df l1 l2 pop_map :
  (forall n, In n l1 <-> In n l2) ->
  match_loop lower scorer pop_df l1 ∅ = Ok pop_map ->
  match_loop lower scorer pop_df l2 ∅ = Ok pop_map.
Proof.
  intros Hset H1.
  pose proof (match_loop_lookup _ _ _ _ _ _ H1) as [Hin1 Hout1].
  destruct (match_loop_total lower scorer pop_df l2 ∅) as [pm2 H2].
  { intros n Hn. apply Hset in Hn. destruct (Hin1 n Hn) as (v & Hv & _). eauto. }
  rewrite H2. f_equal.
  pose proof (match_loop_lookup _ _ _ _ _ _ H2) as [Hin2 Hout2].
  apply map_eq. intros n.
  destruct (in_dec String.string_dec n l1) as [Hn|Hn].
  - destruct (Hin1 n Hn) as (v1 & Hv1 & ->).
    destruct (Hin2 n (proj1 (Hset n) Hn)) as (v2 & Hv2 & ->). congruence.
  - rewrite (Hout1 n Hn). apply Hout2. intros Hn2. apply Hn, Hset, Hn2.
Qed.

(** X10 on two lists of the same names. *)
Lemma X10_pop_map_set_of_names_witness :
  exists pop_map,
    match_loop Examples.str_lower Examples.toy_scorer
      (download_population_data Examples.rows0)
      ["France"; "Mars"; "France"] ∅ = Ok pop_map /\
    match_loop Examples.str_lower Examples.toy_scorer
      (download_population_data Examples.rows0)
      ["Mars"; "France"] ∅ = Ok pop_map.
Proof.
  destruct (match_loop_total Examples.str_lower Examples.toy_scorer
              (download_population_data Examples.rows0)
              ["France"; "Mars"; "France"] ∅) as [pm Hpm].
  { intros n _. apply match_one_total; [discriminate|].
    intros a b. unfold Examples.toy_scorer.
    destruct (String.eqb _ _); [lia|]. destruct (String.prefix _ _); lia. }
  exists pm. split; [exact Hpm|].
  refine (X10_pop_map_set_of_names _ _ _ _ _ _ _ Hpm).
  intros n. simpl. tauto.
Defined.

(** X11: the loop raises exactly when some name cannot be reconciled,
    and then with the exception of the first such name in the order of
    the boundary rows. *)
Theorem X11_match_loop_raises lower scorer pop_df cnames e :
  forall pop_map,
  match_loop lower scorer pop_df cnames pop_map = Raise e <->
  exists pre c post,
    cnames = pre ++ c :: post /\
    (forall n, In n pre ->
       exists v, match_one lower scorer pop_df n = Ok v) /\
    match_one lower scorer pop_df c = Raise e.
Proof.
  induction cnames as [|c rest IH]; intros m; simpl.
  - split; [discriminate|]. intros (pre & c & post & H & _).
    destruct pre; discriminate.
  - destruct (match_one lower scorer pop_df c) as [v|e'] eqn:M; simpl.
    + rewrite IH. split.
      * intros (pre & c' & post & -> & Hpre & Hc).
        exists (c :: pre), c', post. repeat split; auto.
        intros n [<-|Hn]; eauto.
      * intros (pre & c' & post & Heq & Hpre & Hc).
        destruct pre as [|p pre]; simpl in Heq; injection Heq as Ec Er.
        -- congruence.
        -- exists pre, c', post. split; [exact Er|]. split; [|exact Hc].
           intros n Hn. apply Hpre. now right.
    + split.
      * intros [= <-]. exists [], c, rest. repeat split; auto.
        intros n [].
      * intros (pre & c' & post & Heq & Hpre & Hc).
        destruct pre as [|p pre]; simpl in Heq; injection Heq as Ec Er.
        -- congruence.
        -- destruct (Hpre p (or_introl eq_refl)) as [v Hv]. congruence.
Qed.

(** X11 with a scorer that rejects every choice for "Mars". *)
Lemma X11_match_loop_raises_witness :
  match_loop Examples.str_lower
    (fun query choice => if String.eqb query "Mars" then -1 else 100)
    (download_population_data Examples.rows0)
    ["France"; "Mars"; "Russia"] ∅ = Raise TypeError.
Proof.
  apply X11_match_loop_raises.
  exists ["France"], "Mars", ["Russia"]. split; [reflexivity|]. split.
  - intros n [<-|[]]. eexists. reflexivity.
  - reflexivity.
Defined.


(** * Further properties of the pipeline *)

Lemma download_In_rows rows p :
  In p (download_population_data rows) -> In (as_raw p) rows.
Proof.
  unfold download_population_data. intros Hp.
  apply as_raw_dropna_In in Hp.
  now apply select_year_incl.
Qed.

(** Where a record's population comes from. *)
Lemma main_record_source lower scorer libm_pow libm_cos libm_sin
    world rows out rec v :
  main lower scorer libm_pow libm_cos libm_sin world rows = Ok out ->
  In rec (countries out) -> population_raw rec = Some v ->
  exists p, In p (download_population_data rows) /\ population p = v /\
            (lower (country p) = lower (out_country rec) \/
             85 < scorer (out_country rec) (country p)).
Proof.
  intros Hmain Hrec Hv. apply main_Ok_iff in Hmain.
  destruct Hmain as (Hall & _ & ps & _ & ->). cbn [countries] in Hrec.
  apply in_map_iff in Hrec. destruct Hrec as (row & <- & Hrow).
  apply kept_In in Hrow. destruct Hrow as [Hrow _].
  destruct (Hall row Hrow) as [w Hw].
  unfold expected_record in Hv. cbn [population_raw out_country] in *.
  rewrite Hw in Hv. simpl in Hv. subst w.
  unfold expected_record. cbn [out_country].
  now apply match_one_Some.
Qed.

(** X19: with an empty table the run raises [TypeError] as soon as there
    is a boundary row, even one without geometry, since every name is
    reconciled before any row is skipped; with no boundary row it
    succeeds and saves nothing. *)
Theorem X19_empty_table lower scorer libm_pow libm_cos libm_sin world rows :
  download_population_data rows = [] ->
  (world = [] ->
   main lower scorer libm_pow libm_cos libm_sin world rows
   = Ok (mkOutput [] POP_YEAR [])) /\
  (world <> [] ->
   main lower scorer libm_pow libm_cos libm_sin world rows
   = Raise TypeError).
Proof.
  intros H. unfold main. rewrite H. split.
  - intros ->. reflexivity.
  - destruct world as [|row rest]; [congruence|]. intros _. reflexivity.
Qed.

(** X19 on the table whose only row of 2023 does not parse and a world
    of one row without geometry. *)
Lemma X19_empty_table_witness :
  main Examples.str_lower Examples.toy_scorer Examples.sqrt_pow
    Examples.poly_cos Examples.poly_sin
    [mkRegion "Ghost" None "GHO"] Examples.rows2 = Raise TypeError.
Proof.
  apply (X19_empty_table Examples.str_lower Examples.toy_scorer
           Examples.sqrt_pow Examples.poly_cos Examples.poly_sin
           [mkRegion "Ghost" None "GHO"] Examples.rows2).
  - reflexivity.
  - discriminate.
Defined.

(** X20: the saved year is always 2023, also when the table has no row
    of 2023: then every population in the output is that of a row of
    another year. *)
Theorem X20_saved_year lower scorer libm_pow libm_cos libm_sin
    world rows out :
  main lower scorer libm_pow libm_cos libm_sin world rows = Ok out ->
  state_year out = 2023 /\
  (has_year POP_YEAR rows = false ->
   forall rec v, In rec (countries out) -> population_raw rec = Some v ->
     exists r, In r rows /\ raw_population r = Some v /\
               raw_year r <> 2023).
Proof.
  intros Hmain. split.
  - apply main_Ok_iff in Hmain. destruct Hmain as (_ & _ & ps & _ & ->).
    reflexivity.
  - intros Hy rec v Hrec Hv.
    destruct (main_record_source _ _ _ _ _ _ _ _ _ _ Hmain Hrec Hv)
      as (p & Hp & <- & _).
    apply download_In_rows in Hp.
    exists (as_raw p). split; [exact Hp|]. split; [reflexivity|].
    rewrite has_year_false in Hy. exact (Hy _ Hp).
Qed.

(** X20 on the table with no row of 2023. *)
Lemma X20_saved_year_witness :
  exists out,
    main Examples.str_lower Examples.toy_scorer Examples.sqrt_pow
      Examples.poly_cos Examples.poly_sin Examples.world0 Examples.rows1
    = Ok out /\ state_year out = 2023.
Proof.
  destruct (main_total Examples.str_lower Examples.toy_scorer
              Examples.sqrt_pow Examples.poly_cos Examples.poly_sin
              Examples.world0 Examples.rows1 ltac:(discriminate)
              toy_scorer_nonneg world0_areas) as [out Hout].
  { simpl. intros p [<-|[]]. eexists. vm_compute. reflexivity. }
  exists out. split; [exact Hout|].
  exact (proj1 (X20_saved_year _ _ _ _ _ _ _ _ Hout)).
Defined.

(** X21: the run on two lists of boundary rows one after the other
    succeeds exactly when the runs on each list succeed, and then its
    polygons and its records are theirs, appended. *)
Theorem X21_main_append lower scorer libm_pow libm_cos libm_sin
    w1 w2 rows out :
  main lower scorer libm_pow libm_cos libm_sin (w1 ++ w2) rows = Ok out <->
  exists o1 o2,
    main lower scorer libm_pow libm_cos libm_sin w1 rows = Ok o1 /\
    main lower scorer libm_pow libm_cos libm_sin w2 rows = Ok o2 /\
    out = mkOutput (polygons o1 ++ polygons o2) POP_YEAR
                   (countries o1 ++ countries o2).
Proof.
  rewrite main_Ok_iff. split.
  - intros (Hall & Hmil & ps & Hps & ->).
    rewrite kept_app, mapM_app in Hps.
    apply bind_Ok in Hps. destruct Hps as (p1 & H1 & Hps).
    apply bind_Ok in Hps. destruct Hps as (p2 & H2 & Hps).
    injection Hps as <-.
    eexists _, _. split; [|split].
    + apply main_Ok_iff. split; [|split; [|eauto]].
      * intros row Hrow. apply Hall. apply in_app_iff. now left.
      * intros row Hrow. apply Hmil. rewrite kept_app.
        apply in_app_iff. now left.
    + apply main_Ok_iff. split; [|split; [|eauto]].
      * intros row Hrow. apply Hall. apply in_app_iff. now right.
      * intros row Hrow. apply Hmil. rewrite kept_app.
        apply in_app_iff. now right.
    + cbn [polygons countries]. now rewrite kept_app, map_app.
  - intros (o1 & o2 & H1 & H2 & ->).
    apply main_Ok_iff in H1, H2.
    destruct H1 as (Hall1 & Hmil1 & p1 & Hp1 & ->),
             H2 as (Hall2 & Hmil2 & p2 & Hp2 & ->).
    split; [|split].
    + intros row Hrow. apply in_app_iff in Hrow. destruct Hrow; auto.
    + intros row Hrow. rewrite kept_app in Hrow.
      apply in_app_iff in Hrow. destruct Hrow; auto.
    + exists (p1 ++ p2). rewrite kept_app, mapM_app, Hp1, Hp2.
      split; [reflexivity|]. cbn [polygons countries]. now rewrite map_app.
Qed.

(** X21 on the example world, cut after its third row. *)
Lemma X21_main_append_witness :
  exists o1 o2,
    main Examples.str_lower Examples.toy_scorer Examples.sqrt_pow
      Examples.poly_cos Examples.poly_sin
      (firstn 3 Examples.world0) Examples.rows0 = Ok o1 /\
    main Examples.str_lower Examples.toy_scorer Examples.sqrt_pow
      Examples.poly_cos Examples.poly_sin
      (skipn 3 Examples.world0) Examples.rows0 = Ok o2 /\
    Examples.records0 = countries o1 ++ countries o2.
Proof.
  destruct run0 as [ps Hrun].
  change Examples.world0
    with (firstn 3 Examples.world0 ++ skipn 3 Examples.world0) in Hrun.
  apply X21_main_append in Hrun. destruct Hrun as (o1 & o2 & H1 & H2 & E).
  exists o1, o2. split; [exact H1|]. split; [exact H2|].
  now injection E.
Defined.

(** X22: the records do not depend on the shape or the place of the
    boundaries: two worlds whose rows agree on name, code and on whether
    there is a boundary at all get the same records. *)
Theorem X22_records_ignore_geometry lower scorer libm_pow libm_cos libm_sin
    world world' rows out out' :
  Forall2 (fun row row' =>
             reg_country row = reg_country row' /\ iso3 row = iso3 row' /\
             has_boundary row = has_boundary row') world world' ->
  main lower scorer libm_pow libm_cos libm_sin world rows = Ok out ->
  main lower scorer libm_pow libm_cos libm_sin world' rows = Ok out' ->
  countries out' = countries out.
Proof.
  intros Hsame H H'. apply main_Ok_iff in H, H'.
  destruct H as (_ & _ & ps & _ & ->), H' as (_ & _ & ps' & _ & ->).
  cbn [countries].
  induction Hsame as [|row row' w w' (Hn & Hi & Hb) Hrest IH];
    [reflexivity|].
  destruct (has_boundary row) eqn:B.
  - rewrite (kept_keep row) by exact B.
    rewrite (kept_keep row') by congruence.
    cbn [map]. rewrite IH. f_equal.
    unfold expected_record. now rewrite Hn, Hi.
  - rewrite (kept_skip row) by exact B.
    rewrite (kept_skip row') by congruence. exact IH.
Qed.

(** X22 on the example world and the same world with other squares. *)
Lemma X22_records_ignore_geometry_witness :
  exists out',
    main Examples.str_lower Examples.toy_scorer Examples.sqrt_pow
      Examples.poly_cos Examples.poly_sin
      (map (fun row =>
              mkRegion (reg_country row)
                (if has_boundary row then Some (Examples.square 9)
                 else None) (iso3 row)) Examples.world0)
      Examples.rows0 = Ok out' /\
    countries out' = Examples.records0.
Proof.
  destruct run0 as [ps Hrun].
  destruct (main_total Examples.str_lower Examples.toy_scorer
              Examples.sqrt_pow Examples.poly_cos Examples.poly_sin
              (map (fun row =>
                      mkRegion (reg_country row)
                        (if has_boundary row then Some (Examples.square 9)
                         else None) (iso3 row)) Examples.world0)
              Examples.rows0 ltac:(discriminate) toy_scorer_nonneg)
    as [out' Hout'].
  { simpl. intros row geom Hin G.
    repeat (destruct Hin as [<-|Hin];
            [simpl in G; try discriminate; injection G as <-; reflexivity|]).
    destruct Hin. }
  { exact rows0_convert. }
  exists out'. split; [exact Hout'|].
  refine (X22_records_ignore_geometry _ _ _ _ _ _ _ _ _ _ _ Hrun Hout').
  repeat constructor.
Defined.

(** X23: a population in the output is always the population of a row
    of the table, itself a parsed row of the download, and that row's
    name either equals the region's name up to case or scores above 85
    against it. *)
Theorem X23_population_source lower scorer libm_pow libm_cos libm_sin
    world rows out rec v :
  main lower scorer libm_pow libm_cos libm_sin world rows = Ok out ->
  In rec (countries out) -> population_raw rec = Some v ->
  exists p,
    In p (download_population_data rows) /\ In (as_raw p) rows /\
    population p = v /\
    (lower (country p) = lower (out_country rec) \/
     85 < scorer (out_country rec) (country p)).
Proof.
  intros Hmain Hrec Hv.
  destruct (main_record_source _ _ _ _ _ _ _ _ _ _ Hmain Hrec Hv)
    as (p & Hp & Hpop & Hwhy).
  exists p. split; [exact Hp|]. split; [now apply download_In_rows|]. auto.
Qed.

(** X23 on Russia's record in the example run. *)
Lemma X23_population_source_witness :
  exists p,
    In p (download_population_data Examples.rows0) /\
    In (as_raw p) Examples.rows0 /\
    population p = PyInt 144000001 /\
    (Examples.str_lower (country p) = Examples.str_lower "Russia" \/
     85 < Examples.toy_scorer "Russia" (country p)).
Proof.
  destruct run0 as [ps Hrun].
  exact (X23_population_source _ _ _ _ _ _ _ _
           (mkOutputRecord "Russia" "RUS" (Some (PyInt 144000001)) (Some 145))
           _ Hrun (or_introl eq_refl) eq_refl).
Defined.

Lemma float_ceil_Raise x e :
  float_ceil x = Raise e ->
  (e = OverflowError /\ exists s, Prim2SF x = S754_infinity s) \/
  (e = ValueError /\ Prim2SF x = S754_nan).
Proof.
  unfold float_ceil. destruct (Prim2SF x) as [s|s| |s m ex]; try discriminate;
    intros [= <-]; eauto.
Qed.

(** X24: the two loops of a run (lines 73-110) never raise
    [IndexError].  They raise [TypeError] for a
    region name that cannot be reconciled or for a kept boundary whose
    area is a number below zero; they raise [OverflowError] or
    [ValueError] for a kept region whose matched population is not zero
    and whose quotient by 1,000,000 is an infinity or [nan]; and they
    raise for no other reason. *)
Theorem X24_main_raises lower scorer libm_pow libm_cos libm_sin
    world rows e :
  main lower scorer libm_pow libm_cos libm_sin world rows = Raise e ->
  (e = TypeError /\
   ((exists row, In row world /\
       match_one lower scorer (download_population_data rows)
         (reg_country row) = Raise TypeError) \/
    (exists row geom, In row (kept world) /\ geometry row = Some geom /\
                      (area geom <? 0)%float = true /\
                      is_infinity (area geom) = false))) \/
  (exists row v,
     In row (kept world) /\
     match_one lower scorer (download_population_data rows)
       (reg_country row) = Ok (Some v) /\
     truthy v = true /\
     float_ceil (to_float v / 1000000)%float = Raise e /\
     ((e = OverflowError /\
       exists s, Prim2SF (to_float v / 1000000)%float = S754_infinity s) \/
      (e = ValueError /\
       Prim2SF (to_float v / 1000000)%float = S754_nan))).
Proof.
  unfold main. intros H.
  destruct (match_loop lower scorer (download_population_data rows)
              (map reg_country world) ∅) as [pm|e'] eqn:M.
  - cbn [mbind result_bind] in H.
    destruct (build_loop libm_pow libm_cos libm_sin pm world [] [])
      as [built|e''] eqn:B; [discriminate|].
    injection H as <-. apply build_loop_Raise in B.
    destruct B as (row & Hrow & [P|R]).
    + left. unfold polygon_of in P.
      pose proof (proj1 (kept_In _ _) Hrow) as (_ & geom & G & _).
      rewrite G in P. unfold synthesize in P.
      destruct (radius_of libm_pow (area geom)) as [radius|e'] eqn:Rad;
        [discriminate|].
      injection P as <-. apply radius_of_Raise in Rad.
      destruct Rad as (-> & Hneg & Hinf). split; [reflexivity|].
      right. exists row, geom. auto.
    + right. rewrite record_of_eq in R.
      apply match_loop_lookup in M. destruct M as [Hin _].
      pose proof (proj1 (kept_In _ _) Hrow) as (Hw & _).
      destruct (Hin (reg_country row)) as (v & Hv & Hl); [now apply in_map|].
      rewrite Hl in R. change (default None (Some v)) with v in R.
      destruct v as [v|]; [|cbn in R; discriminate].
      unfold pop_millions in R.
      destruct (truthy v) eqn:T; [|cbn in R; discriminate].
      destruct (float_ceil (to_float v / 1000000)%float) as [z|e'] eqn:C;
        cbn in R; [discriminate|].
      injection R as <-. exists row, v.
      split; [exact Hrow|]. split; [exact Hv|]. split; [exact T|].
      split; [exact C|]. now apply float_ceil_Raise.
  - injection H as <-. apply match_loop_Raise in M.
    destruct M as (c & Hin & Hc).
    pose proof (match_one_Raise _ _ _ _ _ Hc) as (-> & _).
    left. split; [reflexivity|]. left.
    apply in_map_iff in Hin. destruct Hin as (row & <- & Hrow). eauto.
Qed.

(** X24 on a table with an infinite population. *)
Lemma X24_main_raises_witness :
  exists row v,
    In row (kept [mkRegion "Big" (Some (Examples.square 1)) "BIG"]) /\
    match_one Examples.str_lower Examples.toy_scorer
      (download_population_data
         [mkRawRow "Big" 2023 (Some (PyFloat infinity))])
      (reg_country row) = Ok (Some v) /\
    float_ceil (to_float v / 1000000)%float = Raise OverflowError.
Proof.
  destruct (X24_main_raises Examples.str_lower Examples.toy_scorer
              Examples.sqrt_pow Examples.poly_cos Examples.poly_sin
              [mkRegion "Big" (Some (Examples.square 1)) "BIG"]
              [mkRawRow "Big" 2023 (Some (PyFloat infinity))]
              OverflowError eq_refl)
    as [[H _]|(row & v & Hrow & Hm & _ & Hc & _)].
  - discriminate H.
  - exists row, v. auto.
Defined.
